(** * genencoder: the generator-based string codec for circuits

    A shallow embedding of [src/genencoder/genencoder.py] (class
    [CircuitGenEncoder]) and the statements of its specification.

    Conventions of the embedding.
    - Python [float]s are exact rationals ([Q]); rounding, overflow and
      the non-finite values are not represented.  [numpy.pi] is the
      rational that the binary64 constant denotes.
    - Python [str] is [string]; a character is a code point below 256.
    - A raised exception is the [Raise] branch of [result].
    - The quantum-circuit library (tequila) is a collaborator: its data
      is modelled by the records below, its parser and its generator
      decomposition are the fields of the class [Collaborator], and every
      theorem of the codec holds for all instances of that class. *)

From Stdlib Require Import QArith Qround Qabs Lqa ZArith Lia Ascii.
From stdpp Require Import gmap strings sorting pretty.

(** ** Exceptions *)

Inductive PyExn : Type :=
| Exception (msg : string)
| ValueError
| AssertionError
| Foreign (msg : string).

Inductive result (A : Type) : Type :=
| Ok (a : A)
| Raise (e : PyExn).
Arguments Ok {A} a.
Arguments Raise {A} e.

Global Instance result_ret : MRet result := λ A a, Ok a.
Global Instance result_bind : MBind result := λ A B k r,
  match r with
  | Ok a => k a
  | Raise e => Raise e
  end.

Definition raises {A} (r : result A) : Prop := ∃ e, r = Raise e.

(** ** Python strings *)

Module Py.

(** [c.isspace()] for the code points below 256. *)
Definition isspace (c : ascii) : bool :=
  let n := N_of_ascii c in
  ((9 <=? n) && (n <=? 13) || (28 <=? n) && (n <=? 32)
   || (n =? 133) || (n =? 160))%N.

Fixpoint lstrip (s : string) : string :=
  match s with
  | "" => ""
  | String c s' => if isspace c then lstrip s' else s
  end.

Fixpoint rstrip (s : string) : string :=
  match s with
  | "" => ""
  | String c s' =>
      match rstrip s' with
      | "" => if isspace c then "" else String c ""
      | r => String c r
      end
  end.

(** [s.strip()] *)
Definition strip (s : string) : string := rstrip (lstrip s).

(** [s.lower()] on the code points below 256. *)
Definition lower_char (c : ascii) : ascii :=
  let n := N_of_ascii c in
  if ((65 <=? n) && (n <=? 90)
      || (192 <=? n) && (n <=? 222) && negb (n =? 215))%N
  then ascii_of_N (n + 32) else c.

Fixpoint lower (s : string) : string :=
  match s with
  | "" => ""
  | String c s' => String (lower_char c) (lower s')
  end.

(** The scan of [s.split(sep)], left to right: the fragment that is
    being read and the fragments after it.  While [skip] is not zero the
    scan is inside a separator that it has matched. *)
Fixpoint split_go (sep : string) (skip : nat) (s : string)
  : string * list string :=
  match s with
  | "" => ("", [])
  | String c s' =>
      match skip with
      | S k => split_go sep k s'
      | O =>
          if String.prefix sep s then
            let '(h, t) := split_go sep (String.length sep - 1) s' in
            ("", h :: t)
          else
            let '(h, t) := split_go sep 0 s' in
            (String c h, t)
      end
  end.

(** [s.split(sep)]; an empty separator is a [ValueError]. *)
Definition split (s sep : string) : result (list string) :=
  match sep with
  | "" => Raise ValueError
  | _ => let '(h, t) := split_go sep 0 s in Ok (h :: t)
  end.

(** [a, b = parts] *)
Definition unpack2 (parts : list string) : result (string * string) :=
  match parts with
  | [a; b] => Ok (a, b)
  | _ => Raise ValueError
  end.

(** [str(xs)] for a list whose items print as the given texts. *)
Fixpoint join (sep : string) (xs : list string) : string :=
  match xs with
  | [] => ""
  | [x] => x
  | x :: xs' => x +:+ sep +:+ join sep xs'
  end.

Definition str_list (xs : list string) : string := "[" +:+ join ", " xs +:+ "]".

(** [str(n)] for a non-negative [int]. *)
Definition str_nat (n : nat) : string := pretty n.

(** The nearest integer, ties to even. *)
Definition round_half_even (x : Q) : Z :=
  let f := Qfloor x in
  match (x - inject_Z f ?= 1 # 2)%Q with
  | Lt => f
  | Gt => (f + 1)%Z
  | Eq => if Z.even f then f else (f + 1)%Z
  end.

Definition digit (d : Z) : ascii := ascii_of_N (48 + Z.to_N d).

Definition pad4 (m : Z) : string :=
  String (digit (m / 1000))
    (String (digit (m / 100 mod 10))
       (String (digit (m / 10 mod 10)) (String (digit (m mod 10)) ""))).

(** ["{:2.4f}".format(x)]: the minimum width 2 never pads. *)
Definition format_4f (x : Q) : string :=
  let n := round_half_even (Qabs x * 10000)%Q in
  (if Qlt_le_dec x 0 then "-" else "")
    +:+ pretty (n / 10000)%Z +:+ "." +:+ pad4 (n mod 10000).

End Py.

(** ** Numbers *)

Local Open Scope Q_scope.

(** [numpy.pi], the binary64 constant 0x400921FB54442D18. *)
Definition numpy_pi : Q := 884279719003555 # 281474976710656.

(** Python's [x % y] on floats: the remainder of the floored quotient. *)
Definition py_mod (x y : Q) : Q := x - y * inject_Z (Qfloor (x / y)).

(** [numpy.isclose(a, b, rtol=1e-05, atol=...)] on finite scalars. *)
Definition isclose (a b : Q) (atol : Q) : bool :=
  Qle_bool (Qabs (a - b)) (atol + (1 # 100000) * Qabs b).

Local Close Scope Q_scope.

(** ** The collaborator's data (tequila) *)

Inductive Pauli : Type := PauliX | PauliY | PauliZ.

Global Instance Pauli_eq_dec : EqDecision Pauli.
Proof. solve_decision. Defined.

(** A Pauli string: qubit index to operator, with a coefficient. *)
Record PauliString : Type := mkPauliString {
  data : gmap nat Pauli;
  coeff : Q
}.

(** [len(ps)] *)
Definition len (ps : PauliString) : nat := size (data ps).

(** [ps.naked()] *)
Definition naked (ps : PauliString) : PauliString :=
  {| data := data ps; coeff := 1 |}.

Definition key_le (a b : nat * Pauli) : Prop := a.1 ≤ b.1.

Global Instance key_le_dec : RelDecision key_le.
Proof. intros a b. unfold key_le. apply _. Defined.

Global Instance key_le_total : Total key_le.
Proof. intros a b. unfold key_le. lia. Qed.

Global Instance key_le_trans : Transitive key_le.
Proof. intros a b c. unfold key_le. lia. Qed.

Definition letter (p : Pauli) : string :=
  match p with
  | PauliX => "X"
  | PauliY => "Y"
  | PauliZ => "Z"
  end.

Definition str_item (kv : nat * Pauli) : string :=
  letter kv.2 +:+ "(" +:+ Py.str_nat kv.1 +:+ ")".

Definition concat_str (l : list string) : string := foldr String.append "" l.

(** The items of a Pauli string in ascending qubit order. *)
Definition sorted_items (ps : PauliString) : list (nat * Pauli) :=
  merge_sort key_le (map_to_list (data ps)).

(** Modelled from the spec: the text of a Pauli string without its
    coefficient, [str(ps.naked())], which the collaborator renders.
    The wire format has it as the Pauli letters ordered by ascending
    qubit index, each annotated with its qubit index. *)
Definition str_naked (ps : PauliString) : string :=
  concat_str (str_item <$> sorted_items (naked ps)).

(** A gate angle, after the spec's design note: a constant, one named
    variable, or an expression over named variables with an evaluator
    that the codec never looks into. *)
Inductive Param : Type :=
| Constant (x : Q)
| Symbol (name : string)
| Expression (names : list string) (evaluate : gmap string Q → option Q).

(** [parameter(variables)]; [None] stands for the exception raised when
    the angle is not resolved. *)
Definition call_param (p : Param) (variables : option (gmap string Q))
  : option Q :=
  match p with
  | Constant x => Some x
  | Symbol n => vs ← variables; vs !! n
  | Expression _ f => vs ← variables; f vs
  end.

(** [parameter.extract_variables()], as the names' texts. *)
Definition extract_variables (p : Param) : list string :=
  match p with
  | Constant _ => []
  | Symbol n => [n]
  | Expression ns _ => ns
  end.

(** [angle * x] for a float [x]. *)
Definition param_mul (p : Param) (x : Q) : Param :=
  match p with
  | Constant a => Constant (a * x)
  | Symbol n => Expression [n] (λ vs, v ← vs !! n; Some (v * x)%Q)
  | Expression ns f => Expression ns (λ vs, v ← f vs; Some (v * x)%Q)
  end.

(** The value of the variable [angle] in [encode] and [decode]: a number
    or a text. *)
Inductive Angle : Type :=
| Num (x : Q)
| Sym (text : string).

(** What a gate constructor makes of its [angle] argument. *)
Definition assign_variable (a : Angle) : Param :=
  match a with
  | Num x => Constant x
  | Sym n => Symbol n
  end.

(** A gate object: [parameter] is [None] when the gate has no such
    attribute; [paulistring] is set on exponentiated Pauli strings. *)
Record Gate : Type := mkGate {
  name : string;
  target : list nat;
  control : list nat;
  parameter : option Param;
  paulistring : option PauliString
}.

(** A circuit is the list of its gates, [circuit.gates]. *)
Abbreviation Circuit := (list Gate).

(** [tq.gates.Ry(angle, target)], [tq.gates.Rz(angle, target, control)]:
    circuits of one rotation gate. *)
Definition Ry (angle : Param) (target : list nat) : Circuit :=
  [ {| name := "Ry"; target := target; control := [];
       parameter := Some angle; paulistring := None |} ].

Definition Rz (angle : Param) (target control : list nat) : Circuit :=
  [ {| name := "Rz"; target := target; control := control;
       parameter := Some angle; paulistring := None |} ].

(** [tq.gates.ExpPauli(paulistring, angle)]: a circuit of one gate that
    keeps both arguments. *)
Definition ExpPauli (ps : PauliString) (angle : Angle) : Circuit :=
  [ {| name := "Exp-Pauli"; target := (sorted_items ps).*1;
       control := []; parameter := Some (assign_variable angle);
       paulistring := Some ps |} ].

(** What the codec asks of its surroundings: Python's [float(text)]
    ([None] when it raises), the collaborator's parser
    [QubitHamiltonian.from_string] with the terms it returns, and a
    gate's [make_generator(include_controls=True).paulistrings]. *)
Class Collaborator : Type := {
  float_of_string : string → option Q;
  from_string : string → result (list PauliString);
  make_generator : Gate → list PauliString
}.

(** ** The codec: class [CircuitGenEncoder] *)

(** The dict [_symbols], which always has exactly these two keys. *)
Record Symbols : Type := mkSymbols {
  gate_separator : string;
  angle_separator : string
}.

Definition default_symbols : Symbols :=
  {| gate_separator := "|"; angle_separator := "@" |}.

Definition four_pi : Q := 4 * numpy_pi.

Definition fix_periodicity (angle : Q) : Q :=
  let angle := py_mod angle four_pi in
  if Qlt_le_dec angle 0 then (angle + four_pi)%Q else angle.

Definition is_hadamard (gate : Gate) : bool :=
  bool_decide (Py.lower (name gate) = "h").

(** The body of the loop of [compile]: what one gate adds to
    [compiled]. *)
Definition compile_gate (gate : Gate) : Circuit :=
  if is_hadamard gate then
    let angle := match parameter gate with
                 | Some p => p
                 | None => Constant 1
                 end in
    let decomposed : Circuit := [] in
    let decomposed :=
      decomposed ++ Ry (Constant (- numpy_pi / 4)) (target gate) in
    let decomposed :=
      decomposed ++ Rz (param_mul angle numpy_pi) (target gate) (control gate) in
    let decomposed :=
      decomposed ++ Ry (Constant (numpy_pi / 4)) (target gate) in
    decomposed
  else [gate].

Definition compile (circuit : Circuit) : Circuit :=
  foldl (λ compiled gate, compiled ++ compile_gate gate) [] circuit.

Definition encode_paulistring (self : Symbols) (ps : PauliString)
    (angle : Angle) : string :=
  let '(local_angle, angle) :=
    match angle with
    | Num a => ((coeff ps * a)%Q, "")
    | Sym text => (coeff ps, text)
    end in
  let local_angle := fix_periodicity local_angle in
  let gen_string := str_naked ps in
  angle +:+ angle_separator self +:+ Py.format_4f local_angle
    +:+ gen_string +:+ gate_separator self.

(** The angle that [encode] resolves for one gate. *)
Definition resolve_angle (gate : Gate) (variables : option (gmap string Q))
  : Angle :=
  match parameter gate with
  | Some p =>
      match call_param p variables with
      | Some x => Num x
      | None =>
          match extract_variables p with
          | [v] => Sym v
          | vs => Sym (Py.str_list vs)
          end
      end
  | None => Num 1
  end.

Section Codec.
Context `{Collaborator}.

Definition encode (self : Symbols) (circuit : Circuit)
    (variables : option (gmap string Q)) : string :=
  let circuit := compile circuit in
  foldl (λ result gate,
           let generator := make_generator gate in
           let angle := resolve_angle gate variables in
           foldl (λ result ps,
                    if decide (len ps = 0) then result
                    else result +:+ encode_paulistring self ps angle)
                 result generator)
        "" circuit.

Definition decode_paulistring (input : string) : result PauliString :=
  ps ← from_string input;
  match ps with
  | [p] => Ok p
  | _ => Raise AssertionError
  end.

(** The angle that [decode] reads from the text before the angle
    separator. *)
Definition decode_angle (angle : string)
    (variables : option (gmap string Q)) : Angle :=
  match float_of_string angle with
  | Some x => Num x
  | None =>
      let angle := Py.strip angle in
      if decide (angle = "") then Num 1
      else match variables with
           | Some vs =>
               match vs !! angle with
               | Some v => Num v
               | None => Sym angle
               end
           | None => Sym angle
           end
  end.

(** The loop of [decode] over the fragments, [circuit] being the
    circuit built so far. *)
Fixpoint decode_gates (self : Symbols) (variables : option (gmap string Q))
    (string_gates : list string) (circuit : Circuit) : result Circuit :=
  match string_gates with
  | [] => Ok circuit
  | gate :: string_gates =>
      let gate := Py.strip gate in
      if decide (gate = "") then
        decode_gates self variables string_gates circuit
      else
        parts ← Py.split gate (angle_separator self);
        '(angle, gate) ← Py.unpack2 parts;
        let angle := decode_angle angle variables in
        ps ← decode_paulistring gate;
        decode_gates self variables string_gates (circuit ++ ExpPauli ps angle)
  end.

Definition decode (self : Symbols) (string : String.string)
    (variables : option (gmap String.string Q)) : result Circuit :=
  string_gates ← Py.split string (gate_separator self);
  decode_gates self variables string_gates [].

End Codec.

(** The loop of [prune_circuit]; a gate whose angle the variables do not
    resolve makes [gate.parameter(variables)] raise. *)
Fixpoint prune_gates (variables : option (gmap string Q)) (threshold : Q)
    (circuit : Circuit) (gates : Circuit) : result Circuit :=
  match circuit with
  | [] => Ok gates
  | gate :: circuit =>
      match parameter gate with
      | Some p =>
          match call_param p variables with
          | Some v =>
              let angle := fix_periodicity v in
              if negb (isclose angle 0 threshold)
              then prune_gates variables threshold circuit (gates ++ [gate])
              else prune_gates variables threshold circuit gates
          | None => Raise (Foreign "parameter")
          end
      | None => prune_gates variables threshold circuit (gates ++ [gate])
      end
  end.

(** [prune_circuit]: the pruned circuit and the lines printed. *)
Definition prune_circuit (circuit : Circuit)
    (variables : option (gmap string Q)) (threshold : Q)
  : result (Circuit * list string) :=
  gates ← prune_gates variables threshold circuit [];
  let printed :=
    if decide (length gates ≠ length circuit)
    then ["pruned from " +:+ Py.str_nat (length circuit) +:+ " to "
            +:+ Py.str_nat (length gates)]
    else [] in
  Ok (gates, printed).

(** The default of [threshold]. *)
Definition default_threshold : Q := 1 # 10000.

(** ** Dispatch on the input value: [__call__] *)

(** The values [__call__] can be given, by what its tests observe. *)
Inductive PyValue : Type :=
| VCircuit (gates : Circuit)          (* a [tq.QCircuit]: has [gates] *)
| VStr (s : string)                   (* a [str] *)
| VUserString (data : string)         (* a [collections.UserString]: has
                                         [lower], [split]; is not a [str] *)
| VOther (type_text text : string).   (* neither [gates] nor [lower], with
                                         the texts of [type(v)] and [v] *)

(** [hasattr(v, "gates") or isinstance(v, tq.QCircuit)] *)
Definition has_gates (v : PyValue) : bool :=
  match v with
  | VCircuit _ => true
  | _ => false
  end.

(** [hasattr(v, "lower")]; the second operand of the source's
    ["lower" or isinstance(v, str)] is never evaluated, a non-empty text
    being true. *)
Definition has_lower (v : PyValue) : bool :=
  match v with
  | VStr _ | VUserString _ => true
  | _ => false
  end.

(** [isinstance(v, str)] *)
Definition is_str (v : PyValue) : bool :=
  match v with
  | VStr _ => true
  | _ => false
  end.

Definition newline : string := String (ascii_of_nat 10) "".

Definition call `{Collaborator} (self : Symbols) (circuit : PyValue)
    (variables : option (gmap string Q)) : result PyValue :=
  match circuit with
  | VCircuit gates => Ok (VStr (encode self gates variables))
  | VStr text | VUserString text =>
      c ← decode self text variables; Ok (VCircuit c)
  | VOther type_text text =>
      Raise (Exception ("unexpected input type for circuit: " +:+ type_text
                          +:+ newline +:+ text))
  end.

(** ** Construction: [__init__] and the class attribute [_symbols] *)

(** The store has the objects that hold separators, and the attributes of
    the class.  An instance has its own attributes; looking one up falls
    back to the class. *)
Record Store : Type := mkStore {
  objects : gmap nat Symbols;
  class_attrs : gmap string nat
}.

Record Instance : Type := mkInstance {
  attrs : gmap string nat
}.

(** The store after the class body has run:
    [_symbols = {"gate_separator": "|", "angle_separator": "@"}]. *)
Definition class_body : Store :=
  {| objects := {[ 0 := default_symbols ]};
     class_attrs := {[ "_symbols" := 0 ]} |}.

(** [self._symbols] *)
Definition getattr_symbols (st : Store) (self : Instance) : option nat :=
  match attrs self !! "_symbols" with
  | Some l => Some l
  | None => class_attrs st !! "_symbols"
  end.

(** [self._symbols[key] = value]: the object found is updated in place. *)
Definition setitem_symbols (st : Store) (self : Instance)
    (update : Symbols → Symbols) : Store :=
  match getattr_symbols st self with
  | Some l => {| objects := alter update l (objects st);
                 class_attrs := class_attrs st |}
  | None => st
  end.

(** [self._symbols["gate_separator"] = g] and its twin, as updates. *)
Definition set_gate_separator (g : string) (d : Symbols) : Symbols :=
  {| gate_separator := g; angle_separator := angle_separator d |}.

Definition set_angle_separator (a : string) (d : Symbols) : Symbols :=
  {| gate_separator := gate_separator d; angle_separator := a |}.

Definition init (gate_separator angle_separator : option string)
    (st : Store) : Store * Instance :=
  let self := {| attrs := ∅ |} in
  let st :=
    match gate_separator with
    | Some g => setitem_symbols st self (set_gate_separator g)
    | None => st
    end in
  let st :=
    match angle_separator with
    | Some a => setitem_symbols st self (set_angle_separator a)
    | None => st
    end in
  (st, self).

(** The separators an instance observes: the properties
    [self.gate_separator] and [self.angle_separator]. *)
Definition symbols_of (st : Store) (self : Instance) : option Symbols :=
  l ← getattr_symbols st self; objects st !! l.

(** ** A stand-in for the surroundings

    The examples below need one concrete [Collaborator].  It reads
    decimal literals, parses sums of terms of the wire format, and
    decomposes rotation gates and exponentiated Pauli strings. *)

Module Model.

Definition digit_value (c : ascii) : option Z :=
  let n := N_of_ascii c in
  if ((48 <=? n) && (n <=? 57))%N then Some (Z.of_N n - 48)%Z else None.

(** The leading decimal digits of [s]: their value after [acc], how many
    were read after [n], and the rest. *)
Fixpoint read_digits (s : string) (acc : Z) (n : nat) : Z * nat * string :=
  match s with
  | "" => (acc, n, "")
  | String c s' =>
      match digit_value c with
      | Some d => read_digits s' (10 * acc + d)%Z (S n)
      | None => (acc, n, s)
      end
  end.

Definition read_sign (s : string) : bool * string :=
  match s with
  | String "-" s' => (true, s')
  | String "+" s' => (false, s')
  | _ => (false, s)
  end.

Definition pow10 (e : Z) : Q := (inject_Z 10 ^ e)%Q.

(** An unsigned decimal number [digits[.digits]] at the head of [s]. *)
Definition read_decimal (s : string) : option (Q * string) :=
  let '(ip, n1, s) := read_digits s 0 0 in
  let '(fp, n2, s) :=
    match s with
    | String "." s' => read_digits s' 0 0
    | _ => (0%Z, 0, s)
    end in
  if decide (n1 + n2 = 0) then None
  else Some ((inject_Z ip + inject_Z fp / pow10 (Z.of_nat n2))%Q, s).

(** Python's [float(text)] on decimal literals
    [[sign]digits[.digits][e[sign]digits]] between optional white space.
    Any other text is refused here, the literals of the non-finite
    floats among them, which have no rational value. *)
Definition py_float (text : string) : option Q :=
  let '(neg, s) := read_sign (Py.strip text) in
  '(m, s) ← read_decimal s;
  e ← match s with
      | "" => Some 0%Z
      | String c s' =>
          if bool_decide (c = "e"%char ∨ c = "E"%char) then
            let '(eneg, s') := read_sign s' in
            match read_digits s' 0 0 with
            | (e, S _, "") => Some (if eneg then - e else e)%Z
            | _ => None
            end
          else None
      end;
  let v := (m * pow10 e)%Q in
  Some (Qred (if neg then - v else v)%Q).

Definition read_letter (c : ascii) : option Pauli :=
  if bool_decide (c = "X"%char) then Some PauliX
  else if bool_decide (c = "Y"%char) then Some PauliY
  else if bool_decide (c = "Z"%char) then Some PauliZ
  else None.

(** The items [letter(index)] up to the end of the text; [fuel] bounds
    their number. *)
Fixpoint read_items (fuel : nat) (s : string) : option (list (nat * Pauli)) :=
  match s with
  | "" => Some []
  | String c s' =>
      match fuel with
      | O => None
      | S fuel =>
          p ← read_letter c;
          match s' with
          | String "(" s'' =>
              match read_digits s'' 0 0 with
              | (q, S _, String ")" rest) =>
                  items ← read_items fuel rest;
                  Some ((Z.to_nat q, p) :: items)
              | _ => None
              end
          | _ => None
          end
      end
  end.

(** One term [[sign][coefficient]letter(index)...]. *)
Definition read_term (s : string) : option PauliString :=
  let '(neg, s) := read_sign s in
  let '(c, s) := match read_decimal s with
                 | Some (c, s') => (c, s')
                 | None => (1%Q, s)
                 end in
  items ← read_items (String.length s) s;
  Some {| data := list_to_map items;
          coeff := Qred (if neg then - c else c)%Q |}.

Fixpoint read_terms (terms : list string) : option (list PauliString) :=
  match terms with
  | [] => Some []
  | t :: terms =>
      ps ← read_term t;
      rest ← read_terms terms;
      Some (ps :: rest)
  end.

(** Modelled from the spec: the collaborator's parser on the wire
    format, [coefficient letter(index) ...], and on sums of such terms
    joined by [+]; the empty text has no term, any other text is
    refused. *)
Definition tq_from_string (s : string) : result (list PauliString) :=
  if decide (s = "") then Ok []
  else
    match read_terms (let '(h, t) := Py.split_go "+" 0 s in h :: t) with
    | Some terms => Ok terms
    | None => Raise (Foreign "from_string")
    end.

Definition axis_of (name : string) : option Pauli :=
  let n := Py.lower name in
  if decide (n = "rx") then Some PauliX
  else if decide (n = "ry") then Some PauliY
  else if decide (n = "rz") then Some PauliZ
  else None.

(** A term times the projector [(1 - Z(c)) / 2] of a control qubit. *)
Definition with_control (c : nat) (ps : PauliString) : list PauliString :=
  [ {| data := data ps; coeff := Qred (coeff ps / 2)%Q |};
    {| data := <[c := PauliZ]> (data ps); coeff := Qred (- coeff ps / 2)%Q |} ].

(** Modelled from the spec: the generator of a rotation gate, its axis
    on the target qubits times the control projectors, and of an
    exponentiated Pauli string; other gates have no term here. *)
Definition tq_make_generator (g : Gate) : list PauliString :=
  let base :=
    match paulistring g, axis_of (name g) with
    | Some ps, _ => [naked ps]
    | None, Some p =>
        [ {| data := list_to_map ((λ t, (t, p)) <$> target g); coeff := 1 |} ]
    | None, None => []
    end in
  foldr (λ c terms, terms ≫= with_control c) base (control g).

Definition tq : Collaborator :=
  {| float_of_string := py_float;
     from_string := tq_from_string;
     make_generator := tq_make_generator |}.

(** Gates for the examples. *)
Definition Rx (angle : Param) (q : nat) : Gate :=
  {| name := "Rx"; target := [q]; control := [];
     parameter := Some angle; paulistring := None |}.

Definition H (q : nat) (control : list nat) : Gate :=
  {| name := "H"; target := [q]; control := control;
     parameter := None; paulistring := None |}.

End Model.

(** ** Predicates of the specification *)

(** Whether [prune_circuit] keeps a gate: it has no parameter, or its
    normalised angle is above the threshold. *)
Definition survives (variables : option (gmap string Q)) (threshold : Q)
    (gate : Gate) : bool :=
  match parameter gate with
  | Some p =>
      match call_param p variables with
      | Some v => negb (Qle_bool (fix_periodicity v) threshold)
      | None => true
      end
  | None => true
  end.

Definition resolved (variables : option (gmap string Q)) (gate : Gate) : Prop :=
  ∀ p, parameter gate = Some p → is_Some (call_param p variables).

(** Gates of the examples on pruning and dispatch. *)
Definition upper_band_angle : Q := 125663 # 10000.

Definition upper_band_gate : Gate := Model.Rx (Constant upper_band_angle) 0.

Definition near_zero_gate : Gate := Model.Rx (Constant (1 # 100000)) 0.

(** Whether the character [c] occurs in [s]. *)
Fixpoint occurs (c : ascii) (s : string) : bool :=
  match s with
  | "" => false
  | String x s' => bool_decide (x = c) || occurs c s'
  end.

(** Whether every character of [s] satisfies [P]. *)
Fixpoint all_chars (P : ascii → bool) (s : string) : bool :=
  match s with
  | "" => true
  | String x s' => P x && all_chars P s'
  end.

Definition is_digit (c : ascii) : bool :=
  let n := N_of_ascii c in ((48 <=? n) && (n <=? 57))%N.

(** The characters of a coefficient and of a Pauli string on the wire. *)
Definition wire_char (c : ascii) : bool :=
  is_digit c
  || bool_decide (c = "."%char ∨ c = "("%char ∨ c = ")"%char
                  ∨ c = "X"%char ∨ c = "Y"%char ∨ c = "Z"%char).

(** A text [digits.dddd]: an integer part and exactly four decimals. *)
Definition four_decimals (s : string) : Prop :=
  ∃ int_part decimals,
    s = int_part +:+ "." +:+ decimals
    ∧ int_part ≠ "" ∧ all_chars is_digit int_part = true
    ∧ String.length decimals = 4 ∧ all_chars is_digit decimals = true.

(** A fragment that [decode] cannot read: splitting it on the angle
    separator does not give two parts, or the parse of its Pauli string
    does not give one term. *)
Definition malformed `{Collaborator} (self : Symbols) (fragment : string)
  : Prop :=
  (∃ parts, Py.split fragment (angle_separator self) = Ok parts
            ∧ length parts ≠ 2)
  ∨ (∃ angle gate terms,
       Py.split fragment (angle_separator self) = Ok [angle; gate]
       ∧ from_string gate = Ok terms ∧ length terms ≠ 1).

(** The text before the angle separator and the coefficient of the token
    that [encode_paulistring] emits. *)
Definition token_prefix (angle : Angle) : string :=
  match angle with
  | Num _ => ""
  | Sym text => text
  end.

Definition token_coefficient (ps : PauliString) (angle : Angle) : Q :=
  fix_periodicity
    match angle with
    | Num a => (coeff ps * a)%Q
    | Sym _ => coeff ps
    end.

(** The coefficient and the letters of a token, the text between the
    angle separator and the gate separator. *)
Definition token_body (ps : PauliString) (angle : Angle) : string :=
  Py.format_4f (token_coefficient ps angle) +:+ str_naked ps.

Definition token_text (self : Symbols) (tok : Angle * PauliString) : string :=
  encode_paulistring self tok.2 tok.1.

(** The token without its gate separator. *)
Definition token_fragment (a : ascii) (tok : Angle * PauliString) : string :=
  token_prefix tok.1 +:+ String a (token_body tok.2 tok.1).

(** Separators of one character each, [g] for gates and [a] for angles,
    that differ, do not occur in coefficients or Pauli strings, and of
    which [a] is not white space. *)
Definition plain_separators (self : Symbols) (g a : ascii) : Prop :=
  gate_separator self = String g "" ∧ angle_separator self = String a ""
  ∧ wire_char g = false ∧ wire_char a = false
  ∧ Py.isspace a = false ∧ g ≠ a.

(** The angle that [decode] reads back from the token of [angle]. *)
Definition decoded_angle (angle : Angle) : Angle :=
  match angle with
  | Num _ => Num 1
  | Sym text => Sym text
  end.

Section Tokens.
Context `{Collaborator}.

(** What [encode] emits a token for: each Pauli string that is not a
    global phase, of each gate of the compiled circuit in order, with
    the angle resolved for that gate. *)
Definition tokens_of (circuit : Circuit)
    (variables : option (gmap string Q)) : list (Angle * PauliString) :=
  compile circuit ≫= λ gate,
    (λ ps, (resolve_angle gate variables, ps))
      <$> filter (λ ps, len ps ≠ 0) (make_generator gate).


(** A symbolic text that survives the wire format with the separator
    characters [g] and [a]: not empty, without white space around it,
    not the text of a number, and free of both separators. *)
Definition plain_name (g a : ascii) (text : string) : Prop :=
  text ≠ "" ∧ Py.strip text = text ∧ float_of_string text = None
  ∧ occurs g text = false ∧ occurs a text = false.

Definition plain_angle (g a : ascii) (angle : Angle) : Prop :=
  match angle with
  | Num _ => True
  | Sym text => plain_name g a text
  end.

(** The gate that [decode] builds from the token of [ps] and [angle]. *)
Definition decoded_from (angle : Angle) (ps : PauliString) (gate : Gate)
  : Prop :=
  ∃ p, from_string (token_body ps angle) = Ok [p]
       ∧ [gate] = ExpPauli p (decoded_angle angle).
End Tokens.




Definition sample_circuit : Circuit :=
  [Model.H 0 [1]; Model.Rx (Symbol "a") 2; Model.Rx (Constant (5 # 2)) 0].

(** Whether a suffix of [s] that is not empty is a prefix of [sep]. *)
Fixpoint border_from (sep s : string) : bool :=
  match s with
  | "" => false
  | String _ s' => String.prefix s sep || border_from sep s'
  end.

(** Whether [sep] has a border: a proper suffix, not empty, that is also
    a prefix of [sep].  A separator of one character has none. *)
Definition has_border (sep : string) : bool :=
  match sep with
  | "" => false
  | String _ s' => border_from sep s'
  end.


(** The rational that the text of [Py.format_4f] denotes, for [x] that
    is not negative. *)
Definition round_4f (x : Q) : Q :=
  (inject_Z (Py.round_half_even (x * 10000)) / 10000)%Q.

Definition third_circuit : Circuit := [Model.Rx (Constant (1 # 3)) 0].

(** An encoder whose angle separator is the decimal point. *)
Definition dotted_symbols : Symbols :=
  {| gate_separator := "|"; angle_separator := "." |}.

Definition half_turn_circuit : Circuit := [Model.Rx (Constant (5 # 2)) 0].

(** ** Further predicates on the codec *)

(** The angle that [decode] with the variables [vars] reads back from
    the token of [angle]. *)
Definition substituted_angle (vars : option (gmap string Q)) (angle : Angle)
  : Angle :=
  match angle with
  | Num _ => Num 1
  | Sym text =>
      match vars with
      | Some vs =>
          match vs !! text with
          | Some v => Num v
          | None => Sym text
          end
      | None => Sym text
      end
  end.

(** Whether every fragment of a text is blank for [decode]: the text has
    only white space and the character [g]. *)
Definition blank_char (g : ascii) (c : ascii) : bool :=
  Py.isspace c || bool_decide (c = g).

Definition mixed_circuit : Circuit :=
  [Model.H 0 [1]; Model.Rx (Symbol "a") 2; Model.H 3 []].

(** Gates of the example on pruning twice. *)
Definition pruned_example : Circuit :=
  [upper_band_gate; near_zero_gate; Model.H 0 []].

(** ** The circuit generator: class [CircuitGenerator]

    Python [int]s are integers ([Z]); a [dict] is the list of its items
    in insertion order, with one item for each key. *)

Module Gen.

Inductive GenExn : Type :=
| GenException (msg : string)
| NotImplementedError (msg : string)
| AttributeError (attr : string).

Inductive outcome (A : Type) : Type :=
| Return (a : A)
| Throw (e : GenExn).
Arguments Return {A} a.
Arguments Throw {A} e.

Global Instance outcome_ret : MRet outcome := λ A a, Return a.
Global Instance outcome_bind : MBind outcome := λ A B k r,
  match r with
  | Return a => k a
  | Throw e => Throw e
  end.

Section Dict.
Context {K V : Type} `{EqDecision K}.

(** [d[k] = v]: the item of [k] takes the value where it stands, a new
    key comes last. *)
Fixpoint dict_set (k : K) (v : V) (d : list (K * V)) : list (K * V) :=
  match d with
  | [] => [(k, v)]
  | (k', v') :: d' =>
      if decide (k' = k) then (k, v) :: d' else (k', v') :: dict_set k v d'
  end.

(** [d.get(k)] *)
Fixpoint dict_get (k : K) (d : list (K * V)) : option V :=
  match d with
  | [] => None
  | (k', v) :: d' => if decide (k' = k) then Some v else dict_get k d'
  end.

(** The items written one after the other into [d]: a dict display, a
    comprehension, [**items]. *)
Definition dict_update (d items : list (K * V)) : list (K * V) :=
  foldl (λ d kv, dict_set kv.1 kv.2 d) d items.

End Dict.

(** [range(a, b)] *)
Definition range (a b : Z) : list Z :=
  (λ i, (a + Z.of_nat i)%Z) <$> seq 0 (Z.to_nat (b - a)).

(** [s.upper()] on the code points below 256; the three of them whose
    upper case is not below 256 (181, 223, 255) are left as they are. *)
Definition upper_char (c : ascii) : ascii :=
  let n := N_of_ascii c in
  if ((97 <=? n) && (n <=? 122)
      || (224 <=? n) && (n <=? 254) && negb (n =? 247))%N
  then ascii_of_N (n - 32) else c.

Fixpoint upper (s : string) : string :=
  match s with
  | "" => ""
  | String c s' => String (upper_char c) (upper s')
  end.

Definition char_le (a b : ascii) : Prop := (N_of_ascii a ≤ N_of_ascii b)%N.

Global Instance char_le_dec : RelDecision char_le.
Proof. intros a b. unfold char_le. apply _. Defined.

Global Instance char_le_total : Total char_le.
Proof. intros a b. unfold char_le. lia. Qed.

Global Instance char_le_trans : Transitive char_le.
Proof. intros a b c. unfold char_le. lia. Qed.

Global Instance char_le_antisym : AntiSymm (=) char_le.
Proof.
  intros a b Hab Hba. unfold char_le in *.
  rewrite <- (ascii_N_embedding a), <- (ascii_N_embedding b).
  f_equal. lia.
Qed.

(** ["".join(sorted(x))] *)
Definition sorted_text (x : string) : string :=
  String.string_of_list_ascii
    (merge_sort char_le (String.list_ascii_of_string x)).

(** ["".join(sorted(x)).upper()], the form in which [__init__] keeps a
    generator. *)
Definition normalise (x : string) : string := upper (sorted_text x).

(** The argument [key] of [make_connectivity_map]: a text, or a circuit. *)
Inductive KeyArg : Type :=
| KeyText (key : string)
| KeyCircuit (circuit : Circuit).

Definition make_connectivity_map_from_circuit (circuit : Circuit)
  : outcome (list (Z * list Z)) :=
  Throw (NotImplementedError "still missing").

Definition all_to_all (n_qubits : Z) : list (Z * list Z) :=
  dict_update []
    ((λ k, (k, filter (λ l, l ≠ k) (range 0 n_qubits))) <$> range 0 n_qubits).

Definition local_line (n_qubits : Z) : list (Z * list Z) :=
  let d := dict_update [] [(0%Z, [1%Z])] in
  let d := dict_update d
             ((λ k, (k, [(k + 1)%Z; (k - 1)%Z])) <$> range 1 (n_qubits - 1)) in
  dict_update d [((n_qubits - 1)%Z, [(n_qubits - 2)%Z])].

Definition local_ring (n_qubits : Z) : list (Z * list Z) :=
  dict_update []
    ((λ k, (k, [((k + 1) mod n_qubits)%Z; ((k - 1) mod n_qubits)%Z]))
       <$> range 0 n_qubits).

Definition make_connectivity_map (key : KeyArg) (n_qubits : option Z)
  : outcome (list (Z * list Z)) :=
  match key with
  | KeyText key =>
      match n_qubits with
      | None =>
          Throw (GenException "make_connectivity_map from key needs n_qubits")
      | Some n_qubits =>
          if decide (Py.lower key = "all_to_all") then
            Return (all_to_all n_qubits)
          else if decide (Py.lower key = "local_line") then
            Return (local_line n_qubits)
          else if decide (Py.lower key = "local_ring") then
            Return (local_ring n_qubits)
          else
            Throw (GenException
                     ("unknown key to create connectivity_map: " +:+ key))
      end
  | KeyCircuit circuit => make_connectivity_map_from_circuit circuit
  end.

(** The arguments of [__init__]: [connectivity] is left out, a text, or
    a dict; [generators] is left out, an iterable of texts, or a value
    that is not iterable, with its text. *)
Inductive ConnArg : Type :=
| ConnNone
| ConnText (key : string)
| ConnDict (d : list (Z * list Z)).

Inductive GensArg : Type :=
| GensNone
| GensList (generators : list string)
| GensOther (text : string).

(** The values of the attributes that [__init__] sets. *)
Inductive Attr : Type :=
| AttrConnectivity (d : list (Z * list Z))
| AttrGenerators (l : list string)
| AttrDepth (depth : Z)
| AttrFixAngles (d : list (string * Angle)).

Definition default_generators : list string :=
  ["X"; "Y"; "Z"; "XX"; "YY"; "ZZ"; "XY"; "XZ"; "YZ"].

(** [__init__]: the [__dict__] of the new instance. *)
Definition init (depth : option Z) (connectivity : ConnArg)
    (n_qubits : option Z) (generators : GensArg)
    (fix_angles : option (list (string * Angle)))
  : outcome (gmap string Attr) :=
  let self : gmap string Attr := ∅ in
  let connectivity :=
    match connectivity with
    | ConnNone => ConnText "all_to_all"
    | _ => connectivity
    end in
  self ← match connectivity with
         | ConnText key =>
             match n_qubits with
             | None =>
                 Throw (GenException
                          ("need to pass n_qubits if connectivity is "
                           +:+ "automatically generated from key=" +:+ key))
             | Some _ =>
                 m ← make_connectivity_map (KeyText key) n_qubits;
                 Return (<["_connectivity" := AttrConnectivity m]> self)
             end
         | _ => Return self
         end;
  self ← match generators with
         | GensList l =>
             Return (<["_generators" := AttrGenerators (normalise <$> l)]> self)
         | GensNone =>
             Return (<["_generators" := AttrGenerators default_generators]> self)
         | GensOther text =>
             Throw (GenException
                      ("generators should be a list of strings: " +:+ text))
         end;
  depth ← match depth with
          | Some depth => Return depth
          | None =>
              match n_qubits with
              | None =>
                  Throw (GenException
                           "need to pass n_qubits for default value of depth")
              | Some n_qubits => Return n_qubits
              end
          end;
  let self := <["_max_depth" := AttrDepth depth]> self in
  let fix_angles := default [] fix_angles in
  Return (<["_fix_angles" :=
              AttrFixAngles
                (dict_update [] ((λ kv, (upper kv.1, kv.2)) <$> fix_angles))]>
            self).

(** The properties of the class. *)
Definition connectivity (self : gmap string Attr)
  : outcome (list (Z * list Z)) :=
  match self !! "_connectivity" with
  | Some (AttrConnectivity d) => Return d
  | _ => Throw (AttributeError "_connectivity")
  end.

Definition qubits (self : gmap string Attr) : outcome (list Z) :=
  d ← connectivity self; Return d.*1.

Definition n_qubits (self : gmap string Attr) : outcome nat :=
  q ← qubits self; Return (length q).

Definition generators (self : gmap string Attr) : outcome (list string) :=
  match self !! "_generators" with
  | Some (AttrGenerators l) => Return l
  | _ => Throw (AttributeError "_generators")
  end.

Definition max_coupling (self : gmap string Attr) : outcome Z :=
  match self !! "_max_coupling" with
  | Some (AttrDepth d) => Return d
  | _ => Throw (AttributeError "_max_coupling")
  end.

Definition max_depth (self : gmap string Attr) : outcome Z :=
  match self !! "_max_depth" with
  | Some (AttrDepth d) => Return d
  | _ => Throw (AttributeError "_max_depth")
  end.

Definition fix_angles (self : gmap string Attr)
  : outcome (list (string * Angle)) :=
  match self !! "_fix_angles" with
  | Some (AttrFixAngles d) => Return d
  | _ => Throw (AttributeError "_fix_angles")
  end.

(** Whether [l] is a neighbour of [k] in the map [d]. *)
Definition neighbour (d : list (Z * list Z)) (k l : Z) : Prop :=
  ∃ ns, dict_get k d = Some ns ∧ l ∈ ns.

End Gen.


(** The keys from which [make_connectivity_map] builds a map, and the
    arguments from which [__init__] does. *)
Definition known_keys : list string :=
  ["all_to_all"; "local_line"; "local_ring"].

Definition builds_connectivity (connectivity : Gen.ConnArg) : Prop :=
  match connectivity with
  | Gen.ConnNone => True
  | Gen.ConnText key => Py.lower key ∈ known_keys
  | Gen.ConnDict _ => False
  end.

Definition is_dict (connectivity : Gen.ConnArg) : Prop :=
  match connectivity with
  | Gen.ConnDict _ => True
  | _ => False
  end.

Definition iterable (generators : Gen.GensArg) : Prop :=
  match generators with
  | Gen.GensOther _ => False
  | _ => True
  end.

(** The texts on which [Gen.upper] is [str.upper]: those without the
    code points 181, 223 and 255. *)
Definition upper_below_256 (s : string) : Prop :=
  Forall (λ c, N_of_ascii c ∉ [181%N; 223%N; 255%N])
         (String.list_ascii_of_string s).

Definition line_map : list (Z * list Z) :=
  [(0%Z, [1%Z]); (1%Z, [0%Z])].

(** The key that [__init__] passes on: the text given, or the default. *)
Definition key_of (connectivity : Gen.ConnArg) : string :=
  match connectivity with
  | Gen.ConnText key => key
  | _ => "all_to_all"
  end.

(** Two lists of generators that differ in the order of the letters of
    each generator only. *)
Definition same_letters (x y : string) : Prop :=
  String.list_ascii_of_string x ≡ₚ String.list_ascii_of_string y.

(** * Theorems *)

(** ** Periodicity *)

Lemma four_pi_pos : (0 < four_pi)%Q.
Proof. reflexivity. Qed.

Lemma py_mod_range (x y : Q) :
  (0 < y)%Q → (0 <= py_mod x y)%Q ∧ (py_mod x y < y)%Q.
Proof.
  intros Hy. unfold py_mod.
  pose proof (Qfloor_le (x / y)) as Hlo.
  pose proof (Qlt_floor (x / y)) as Hhi.
  assert (Hx : (x == y * (x / y))%Q) by (field; lra).
  rewrite inject_Z_plus in Hhi.
  set (f := inject_Z (Qfloor (x / y))) in *.
  split.
  - assert (y * f <= y * (x / y))%Q by (apply Qmult_le_l; assumption).
    lra.
  - assert (y * (x / y) < y * (f + inject_Z 1))%Q
      by (apply Qmult_lt_l; assumption).
    change (inject_Z 1) with 1%Q in *. lra.
Qed.

(** On exact numbers the branch [angle < 0.0] of [fix_periodicity] is
    never taken. *)
Lemma fix_periodicity_unfold (angle : Q) :
  fix_periodicity angle = py_mod angle four_pi.
Proof.
  unfold fix_periodicity.
  destruct (py_mod_range angle four_pi four_pi_pos) as [Hlo _].
  destruct (Qlt_le_dec _ _) as [Hneg|]; [lra | reflexivity].
Qed.

Lemma fix_periodicity_range (angle : Q) :
  (0 <= fix_periodicity angle)%Q ∧ (fix_periodicity angle < four_pi)%Q.
Proof.
  rewrite fix_periodicity_unfold. apply py_mod_range, four_pi_pos.
Qed.


(** ** Compilation *)

Lemma compile_app_acc (circuit acc : Circuit) :
  foldl (λ compiled gate, compiled ++ compile_gate gate) acc circuit
  = acc ++ (circuit ≫= compile_gate).
Proof.
  revert acc. induction circuit as [|gate circuit IH]; intros acc; simpl.
  - by rewrite app_nil_r.
  - rewrite IH. by rewrite <- app_assoc.
Qed.

Lemma compile_bind (circuit : Circuit) :
  compile circuit = circuit ≫= compile_gate.
Proof. unfold compile. by rewrite compile_app_acc. Qed.

(** C7. [compile] replaces each Hadamard gate by the three rotations
    Ry(-π/4), Rz(angle·π) with the gate's controls, Ry(π/4), all on the
    gate's target, and leaves every other gate as it is, in the order of
    the input. *)
Theorem compile_hadamard_decomposition (circuit : Circuit) :
  compile circuit
  = circuit ≫= (λ gate,
      if bool_decide (Py.lower (name gate) = "h") then
        [ {| name := "Ry"; target := target gate; control := [];
             parameter := Some (Constant (- numpy_pi / 4));
             paulistring := None |};
          {| name := "Rz"; target := target gate; control := control gate;
             parameter :=
               Some (param_mul (default (Constant 1) (parameter gate)) numpy_pi);
             paulistring := None |};
          {| name := "Ry"; target := target gate; control := [];
             parameter := Some (Constant (numpy_pi / 4));
             paulistring := None |} ]
      else [gate]).
Proof.
  rewrite compile_bind. induction circuit as [|gate circuit IH]; [done|].
  rewrite !bind_cons, IH. reflexivity.
Qed.

(** ** Pruning *)

Lemma isclose_zero (a t : Q) :
  (0 <= a)%Q → isclose a 0 t = true ↔ (a <= t)%Q.
Proof.
  intros Ha. unfold isclose. rewrite Qle_bool_iff.
  assert (Hz : (Qabs 0 == 0)%Q) by reflexivity.
  assert (Hd : (Qabs (a - 0) == a)%Q).
  { rewrite Qabs_pos by lra. ring. }
  rewrite Hd, Hz. split; intros; lra.
Qed.

Lemma prune_gates_resolved variables threshold circuit gates :
  Forall (resolved variables) circuit →
  prune_gates variables threshold circuit gates
  = Ok (gates ++ filter (λ g, survives variables threshold g = true) circuit).
Proof.
  intros Hres. revert gates.
  induction Hres as [|gate circuit Hg _ IH]; intros gates; simpl.
  - by rewrite app_nil_r.
  - rewrite filter_cons.
    pose proof (eq_refl (survives variables threshold gate)) as Hs.
    unfold survives at 2 in Hs.
    destruct (parameter gate) as [p|] eqn:Hp.
    + destruct (Hg p Hp) as [v Hv]. rewrite Hv in Hs |- *.
      assert (Hiff : isclose (fix_periodicity v) 0 threshold
                     = Qle_bool (fix_periodicity v) threshold).
      { apply eq_true_iff_eq. rewrite isclose_zero, Qle_bool_iff; [done|].
        apply fix_periodicity_range. }
      rewrite Hiff.
      destruct (Qle_bool (fix_periodicity v) threshold); simpl in *.
      * rewrite decide_False by (rewrite Hs; done). apply IH.
      * rewrite decide_True by done. rewrite IH. by rewrite <- app_assoc.
    + rewrite decide_True by done. rewrite IH. by rewrite <- app_assoc.
Qed.

Lemma prune_gates_unresolved variables threshold circuit gates :
  Exists (λ g, ¬ resolved variables g) circuit →
  raises (prune_gates variables threshold circuit gates).
Proof.
  intros Hex. revert gates.
  induction Hex as [gate circuit Hg | gate circuit _ IH]; intros gates; simpl.
  - destruct (parameter gate) as [p|] eqn:Hp.
    + destruct (call_param p variables) as [v|] eqn:Hv.
      * exfalso. apply Hg. intros p' Hp'. rewrite Hp in Hp'.
        injection Hp' as <-. by rewrite Hv.
      * by eexists.
    + exfalso. apply Hg. intros p' Hp'. by rewrite Hp in Hp'.
  - destruct (parameter gate) as [p|]; [|apply IH].
    destruct (call_param p variables); [|by eexists].
    destruct (negb _); apply IH.
Qed.

(** C4, as the code has it.  When the variables resolve the angle of
    every gate that has one, [prune_circuit] returns, in their original
    order, exactly the gates that have no parameter or whose normalised
    angle is above the threshold: it drops the angles from 0 to the
    threshold and nothing else.  When some gate has an angle that the
    variables do not resolve, the call raises. *)
Theorem prune_circuit_drops_near_zero (circuit : Circuit)
    (variables : option (gmap string Q)) (threshold : Q) :
  (Forall (resolved variables) circuit →
   ∃ printed,
     prune_circuit circuit variables threshold
     = Ok (filter (λ g, survives variables threshold g = true) circuit, printed))
  ∧ (Exists (λ g, ¬ resolved variables g) circuit →
     raises (prune_circuit circuit variables threshold)).
Proof.
  unfold prune_circuit. split.
  - intros Hres. rewrite prune_gates_resolved by done. simpl. eauto.
  - intros Hex.
    destruct (prune_gates_unresolved variables threshold circuit [] Hex)
      as [e ->].
    by exists e.
Qed.

Lemma prune_circuit_drops_near_zero_witness :
  (∃ printed,
     prune_circuit [upper_band_gate; near_zero_gate; Model.H 0 []] None
       default_threshold
     = Ok ([upper_band_gate; Model.H 0 []], printed))
  ∧ raises (prune_circuit [Model.Rx (Symbol "a") 0] (Some ∅) default_threshold).
Proof.
  split.
  - apply (proj1 (prune_circuit_drops_near_zero
                    [upper_band_gate; near_zero_gate; Model.H 0 []] None
                    default_threshold)).
    repeat constructor; intros p [= <-]; by eexists.
  - apply (proj2 (prune_circuit_drops_near_zero
                    [Model.Rx (Symbol "a") 0] (Some ∅) default_threshold)).
    constructor. intros Hres. destruct (Hres (Symbol "a") eq_refl) as [v Hv].
    discriminate Hv.
Defined.

(** C4, the claim as stated, fails: a gate whose normalised angle lies
    between 4π - 1e-4 and 4π is returned. *)
Lemma prune_circuit_keeps_upper_band :
  (four_pi - default_threshold <= fix_periodicity upper_band_angle)%Q
  ∧ (fix_periodicity upper_band_angle < four_pi)%Q
  ∧ prune_circuit [upper_band_gate] None default_threshold
    = Ok ([upper_band_gate], []).
Proof. split; [|split]; by vm_compute. Qed.

(** ** Dispatch *)

(** C6, as the code has it.  A value with neither the attribute [gates]
    nor the attribute [lower] makes [__call__] raise an [Exception]
    whose message carries the value's type and the value. *)
Theorem call_unexpected_input `{Collaborator} (self : Symbols) (v : PyValue)
    (variables : option (gmap string Q)) :
  has_gates v = false → has_lower v = false →
  ∃ type_text text,
    v = VOther type_text text
    ∧ call self v variables
      = Raise (Exception ("unexpected input type for circuit: " +:+ type_text
                            +:+ newline +:+ text)).
Proof. destruct v; try done. intros _ _. by do 2 eexists. Qed.

Lemma call_unexpected_input_witness :
  ∃ type_text text,
    VOther "<class 'NoneType'>" "None" = VOther type_text text
    ∧ @call Model.tq default_symbols (VOther "<class 'NoneType'>" "None") None
      = Raise (Exception ("unexpected input type for circuit: " +:+ type_text
                            +:+ newline +:+ text)).
Proof.
  apply (@call_unexpected_input Model.tq default_symbols
           (VOther "<class 'NoneType'>" "None") None); reflexivity.
Defined.

(** C6, the claim as stated, fails: a [UserString] neither has [gates]
    nor is a [str], and [__call__] decodes it. *)
Lemma call_decodes_user_string :
  has_gates (VUserString "") = false
  ∧ is_str (VUserString "") = false
  ∧ @call Model.tq default_symbols (VUserString "") None = Ok (VCircuit []).
Proof. done. Qed.

(** ** Construction *)

(** An instance never gets a [_symbols] of its own, so constructing an
    encoder with a gate separator rewrites the one dict of the class,
    and with it what every instance observes. *)
Lemma init_gate_separator_shared (st st' : Store) (e e0 : Instance)
    (g : string) (syms : Symbols) :
  init (Some g) None st = (st', e) →
  attrs e0 = ∅ → symbols_of st e0 = Some syms →
  symbols_of st' e0 = Some (set_gate_separator g syms).
Proof.
  unfold init, setitem_symbols, symbols_of, getattr_symbols.
  intros [= <- <-] He0. rewrite He0, !lookup_empty.
  destruct (class_attrs st !! "_symbols") as [l|] eqn:Hl; [|done].
  cbn [mbind option_bind objects class_attrs]. rewrite Hl.
  intros Hsyms. cbn [mbind option_bind]. by rewrite lookup_alter_eq, Hsyms.
Qed.

(** C9: the code does not keep it.  An encoder made with the defaults
    observes the separator [|]; once a second encoder is made with the
    gate separator [;], the first one observes [;] too. *)
Theorem init_shares_symbols :
  let '(st1, e1) := init None None class_body in
  let '(st2, e2) := init (Some ";") None st1 in
  symbols_of st1 e1 = Some default_symbols
  ∧ symbols_of st2 e1
    = Some {| gate_separator := ";"; angle_separator := "@" |}
  ∧ symbols_of st2 e2 = symbols_of st2 e1.
Proof. done. Qed.

(** ** Strings *)

Lemma app_cons_str (c : ascii) (s1 s2 : string) :
  String c s1 +:+ s2 = String c (s1 +:+ s2).
Proof. done. Qed.

Lemma app_nil_str (s : string) : "" +:+ s = s.
Proof. done. Qed.

Ltac str_simpl := rewrite ?app_cons_str, ?app_nil_str; simpl.

Lemma app_empty_r (s : string) : s +:+ "" = s.
Proof. induction s as [|c s IH]; str_simpl; [done | by rewrite IH]. Qed.

Lemma app_assoc_str (s1 s2 s3 : string) :
  (s1 +:+ s2) +:+ s3 = s1 +:+ (s2 +:+ s3).
Proof. induction s1 as [|c s1 IH]; str_simpl; [done | by rewrite IH]. Qed.

Lemma occurs_app (c : ascii) (s1 s2 : string) :
  occurs c (s1 +:+ s2) = occurs c s1 || occurs c s2.
Proof.
  induction s1 as [|x s1 IH]; str_simpl; [done|].
  rewrite IH. by rewrite orb_assoc.
Qed.

Lemma all_chars_app (P : ascii → bool) (s1 s2 : string) :
  all_chars P (s1 +:+ s2) = all_chars P s1 && all_chars P s2.
Proof.
  induction s1 as [|x s1 IH]; str_simpl; [done|].
  rewrite IH. by rewrite andb_assoc.
Qed.

Lemma all_chars_impl (P Q : ascii → bool) (s : string) :
  (∀ c, P c = true → Q c = true) →
  all_chars P s = true → all_chars Q s = true.
Proof.
  intros HPQ. induction s as [|x s IH]; simpl; [done|].
  intros [Hx Hs]%andb_true_iff. rewrite (HPQ x Hx). by apply IH.
Qed.

Lemma all_chars_not_occurs (P : ascii → bool) (c : ascii) (s : string) :
  P c = false → all_chars P s = true → occurs c s = false.
Proof.
  intros Hc. induction s as [|x s IH]; simpl; [done|].
  intros [Hx Hs]%andb_true_iff. rewrite (IH Hs), orb_false_r.
  apply bool_decide_eq_false. intros ->. congruence.
Qed.

Lemma prefix_empty (s : string) : String.prefix "" s = true.
Proof. by destruct s. Qed.

Lemma prefix_char (c x : ascii) (s : string) :
  String.prefix (String c "") (String x s) = bool_decide (x = c).
Proof.
  simpl. destruct (ascii_dec c x) as [->|Hne].
  - rewrite prefix_empty. by rewrite bool_decide_eq_true_2.
  - rewrite bool_decide_eq_false_2; [done|]. by intros ->.
Qed.

(** Splitting on a separator of one character. *)
Lemma split_go_char_cons (c x : ascii) (s : string) :
  Py.split_go (String c "") 0 (String x s)
  = let '(h, t) := Py.split_go (String c "") 0 s in
    if bool_decide (x = c) then ("", h :: t) else (String x h, t).
Proof.
  cbn [Py.split_go]. rewrite prefix_char.
  by case_bool_decide.
Qed.

Lemma split_go_char_absent (c : ascii) (s : string) :
  occurs c s = false → Py.split_go (String c "") 0 s = (s, []).
Proof.
  induction s as [|x s IH]; [done|].
  cbn [occurs]. intros [Hx Hs]%orb_false_iff.
  rewrite split_go_char_cons, (IH Hs), Hx. done.
Qed.

Lemma split_go_char_app (c : ascii) (f rest : string) :
  occurs c f = false →
  Py.split_go (String c "") 0 (f +:+ String c rest)
  = let '(h, t) := Py.split_go (String c "") 0 rest in (f, h :: t).
Proof.
  induction f as [|x f IH].
  - intros _. rewrite app_nil_str, split_go_char_cons.
    destruct (Py.split_go _ 0 rest). by rewrite bool_decide_eq_true_2.
  - cbn [occurs]. intros [Hx Hs]%orb_false_iff.
    rewrite app_cons_str, split_go_char_cons, (IH Hs), Hx.
    by destruct (Py.split_go _ 0 rest).
Qed.

(** Stripping. *)
Lemma rstrip_snoc (s : string) (c : ascii) :
  Py.isspace c = false →
  Py.rstrip (s +:+ String c "") = s +:+ String c "".
Proof.
  intros Hc. induction s as [|x s IH]; str_simpl.
  - by rewrite Hc.
  - rewrite IH. by destruct s.
Qed.

Lemma strip_fixed (x : ascii) (s : string) (c : ascii) :
  Py.isspace x = false → Py.isspace c = false →
  Py.strip (String x (s +:+ String c "")) = String x (s +:+ String c "").
Proof.
  intros Hx Hc. unfold Py.strip. cbn [Py.lstrip]. rewrite Hx.
  change (String x (s +:+ String c "")) with (String x s +:+ String c "").
  by apply rstrip_snoc.
Qed.

(** A stripped text that is not empty begins and ends with characters
    that are not white space. *)
Lemma lstrip_head (s : string) :
  match Py.lstrip s with
  | "" => True
  | String x _ => Py.isspace x = false
  end.
Proof.
  induction s as [|x s IH]; simpl; [done|].
  destruct (Py.isspace x) eqn:Hx; [done | exact Hx].
Qed.

Lemma rstrip_head (s : string) :
  match s, Py.rstrip s with
  | String x _, String y _ => x = y
  | _, _ => True
  end.
Proof.
  destruct s as [|x s]; [done|]. simpl.
  destruct (Py.rstrip s); [by destruct (Py.isspace x) | done].
Qed.

Lemma stripped_head (x : ascii) (s : string) :
  Py.strip (String x s) = String x s → Py.isspace x = false.
Proof.
  unfold Py.strip. intros Hs.
  pose proof (lstrip_head (String x s)) as Hl.
  pose proof (rstrip_head (Py.lstrip (String x s))) as Hr.
  destruct (Py.lstrip (String x s)) as [|y l] eqn:Hls; [done|].
  rewrite Hs in Hr. by subst y.
Qed.

(** ** Separators without a border *)

Lemma prefix_refl (s : string) : String.prefix s s = true.
Proof.
  induction s as [|c s IH]; [done|]. simpl.
  by destruct (ascii_dec c c).
Qed.

Lemma prefix_app_l (s p rest : string) :
  String.prefix s p = true → String.prefix s (p +:+ rest) = true.
Proof.
  revert s. induction p as [|x p IH]; intros [|c s]; try done.
  - intros _. apply prefix_empty.
  - rewrite app_cons_str. simpl. destruct (ascii_dec c x); [apply IH | done].
Qed.

Lemma prefix_length (s p : string) :
  String.prefix s p = true → String.length s ≤ String.length p.
Proof.
  revert s. induction p as [|x p IH]; intros [|c s]; simpl; try done; try lia.
  destruct (ascii_dec c x); [|done]. intros Hp%IH. lia.
Qed.

Lemma prefix_app_cases (s p rest : string) :
  String.prefix s (p +:+ rest) = true →
  String.prefix s p = true ∨ ∃ u, s = p +:+ u ∧ String.prefix u rest = true.
Proof.
  revert s. induction p as [|x p IH]; intros s.
  - rewrite app_nil_str. intros Hs. right. by exists s.
  - destruct s as [|c s]; [by left|].
    rewrite app_cons_str. simpl.
    destruct (ascii_dec c x) as [->|]; [|done].
    intros [Hp|(u & -> & Hu)]%IH; [by left|].
    right. by exists u.
Qed.

Lemma border_from_suffix (sep s p u : string) :
  border_from sep s = false → s = p +:+ u → u ≠ "" →
  String.prefix u sep = false.
Proof.
  revert s. induction p as [|x p IH]; intros s Hb -> Hu.
  - rewrite app_nil_str in Hb. destruct u as [|c u]; [done|].
    simpl in Hb. by apply orb_false_iff in Hb as [Hb _].
  - rewrite app_cons_str in Hb. cbn [border_from] in Hb.
    apply orb_false_iff in Hb as [_ Hb]. by apply (IH _ Hb).
Qed.

Lemma no_border (sep p u : string) :
  has_border sep = false → p ≠ "" → u ≠ "" → sep = p +:+ u →
  String.prefix u sep = false.
Proof.
  intros Hb Hp Hu Hsep. destruct p as [|x p]; [done|].
  rewrite app_cons_str in Hsep. subst sep. simpl in Hb.
  by apply (border_from_suffix _ _ p u Hb).
Qed.



Lemma has_border_char (c : ascii) : has_border (String c "") = false.
Proof. done. Qed.

(** ** Decoding *)

Section Decoding.
Context `{Collaborator}.

Lemma unpack2_not_two (parts : list string) :
  length parts ≠ 2 → Py.unpack2 parts = Raise ValueError.
Proof. by destruct parts as [|a [|b [|c parts]]]. Qed.

Lemma decode_paulistring_not_one (input : string) (terms : list PauliString) :
  from_string input = Ok terms → length terms ≠ 1 →
  decode_paulistring input = Raise AssertionError.
Proof.
  intros Hparse Hlen. unfold decode_paulistring. rewrite Hparse. simpl.
  by destruct terms as [|p [|q terms]].
Qed.

Lemma decode_gates_malformed self variables fragments circuit fragment :
  fragment ∈ fragments → Py.strip fragment ≠ "" →
  malformed self (Py.strip fragment) →
  raises (decode_gates self variables fragments circuit).
Proof.
  intros Hin Hne Hbad. revert circuit.
  induction fragments as [|f fragments IH]; intros circuit.
  { by apply elem_of_nil in Hin. }
  cbn [decode_gates].
  destruct (decide (Py.strip f = "")) as [Hf|Hf].
  { apply elem_of_cons in Hin as [->|Hin]; [done | by apply IH]. }
  destruct (Py.split (Py.strip f) (angle_separator self))
    as [parts|e] eqn:Hsplit; simpl; [|by eexists].
  destruct (Py.unpack2 parts) as [[angle gate]|e] eqn:Hparts; simpl;
    [|by eexists].
  destruct (decode_paulistring gate) as [ps|e] eqn:Hps; simpl;
    [|by eexists].
  apply elem_of_cons in Hin as [->|Hin]; [|by apply IH].
  exfalso. destruct Hbad as [(parts' & Hs & Hlen)|(a & g & terms & Hs & Hp & Hlen)].
  - rewrite Hsplit in Hs. injection Hs as <-.
    by rewrite unpack2_not_two in Hparts.
  - rewrite Hsplit in Hs. injection Hs as ->.
    injection Hparts as <- <-.
    by rewrite (decode_paulistring_not_one _ _ Hp Hlen) in Hps.
Qed.

(** C5. When some fragment of the input is not empty and either its
    split on the angle separator does not give two parts or the parse
    of its Pauli string gives no term or several, [decode] raises: no
    circuit is returned, whatever the other fragments are. *)
Theorem decode_malformed_fails (self : Symbols) (string : String.string)
    (variables : option (gmap String.string Q))
    (fragments : list String.string) (fragment : String.string) :
  Py.split string (gate_separator self) = Ok fragments →
  fragment ∈ fragments → Py.strip fragment ≠ "" →
  malformed self (Py.strip fragment) →
  raises (decode self string variables)
  ∧ ∀ circuit, decode self string variables ≠ Ok circuit.
Proof.
  intros Hsplit Hin Hne Hbad. unfold decode. rewrite Hsplit. simpl.
  destruct (decode_gates_malformed self variables fragments [] fragment
              Hin Hne Hbad) as [e He].
  split; [by exists e | intros circuit; by rewrite He].
Qed.

Lemma decode_gates_snoc_empty self variables fragments circuit :
  decode_gates self variables (fragments ++ [""]) circuit
  = decode_gates self variables fragments circuit.
Proof.
  revert circuit. induction fragments as [|f fragments IH]; intros circuit.
  { done. }
  rewrite <- app_comm_cons. cbn [decode_gates].
  destruct (decide (Py.strip f = "")); [by apply IH|].
  destruct (Py.split _ _); simpl; [|done].
  destruct (Py.unpack2 _) as [[angle gate]|]; simpl; [|done].
  destruct (decode_paulistring gate); simpl; [|done].
  apply IH.
Qed.


End Decoding.

Lemma decode_malformed_fails_witness :
  raises (@decode Model.tq default_symbols "@1.0000X(0)|Y(1)|" None)
  ∧ ∀ circuit,
      @decode Model.tq default_symbols "@1.0000X(0)|Y(1)|" None ≠ Ok circuit.
Proof.
  apply (@decode_malformed_fails Model.tq default_symbols "@1.0000X(0)|Y(1)|"
           None ["@1.0000X(0)"; "Y(1)"; ""] "Y(1)").
  - reflexivity.
  - set_solver.
  - discriminate.
  - left. exists ["Y(1)"]. split; [reflexivity | simpl; lia].
Defined.



(** ** Rendering *)

Lemma is_digit_pretty_N_char (d : N) : is_digit (pretty_N_char d) = true.
Proof. unfold pretty_N_char. by repeat case_match. Qed.

Lemma pretty_N_go_digits (x : N) (s : string) :
  all_chars is_digit s = true → all_chars is_digit (pretty_N_go x s) = true.
Proof.
  revert s. induction (N.lt_wf_0 x) as [x _ IH]; intros s Hs.
  destruct (decide (x = 0)%N) as [->|Hx].
  - by rewrite pretty_N_go_0.
  - rewrite pretty_N_go_step by lia. apply IH.
    + apply N.div_lt; lia.
    + simpl. by rewrite is_digit_pretty_N_char, Hs.
Qed.

Lemma pretty_N_go_nonempty (x : N) (s : string) :
  s ≠ "" → pretty_N_go x s ≠ "".
Proof.
  revert s. induction (N.lt_wf_0 x) as [x _ IH]; intros s Hs.
  destruct (decide (x = 0)%N) as [->|Hx].
  - by rewrite pretty_N_go_0.
  - rewrite pretty_N_go_step by lia. apply IH; [apply N.div_lt; lia | done].
Qed.

Lemma pretty_N_digits (x : N) :
  all_chars is_digit (pretty x) = true ∧ pretty x ≠ "".
Proof.
  unfold pretty, pretty_N. case_decide; [done|]. split.
  - by apply pretty_N_go_digits.
  - rewrite pretty_N_go_step by lia. by apply pretty_N_go_nonempty.
Qed.

Lemma pretty_nat_digits (n : nat) :
  all_chars is_digit (Py.str_nat n) = true ∧ Py.str_nat n ≠ "".
Proof. apply pretty_N_digits. Qed.

Lemma pretty_Z_digits (z : Z) :
  (0 ≤ z)%Z → all_chars is_digit (pretty z) = true ∧ pretty z ≠ "".
Proof.
  intros Hz. destruct z as [|p|p]; [done | | lia].
  apply (pretty_N_digits (Npos p)).
Qed.

Lemma is_digit_digit (d : Z) : (0 ≤ d < 10)%Z → is_digit (Py.digit d) = true.
Proof.
  intros Hd.
  assert (d = 0 ∨ d = 1 ∨ d = 2 ∨ d = 3 ∨ d = 4 ∨ d = 5 ∨ d = 6 ∨ d = 7
          ∨ d = 8 ∨ d = 9)%Z as Hcases by lia.
  by repeat (destruct Hcases as [->|Hcases]; [done|]); subst.
Qed.

Lemma pad4_digits (m : Z) :
  (0 ≤ m < 10000)%Z →
  String.length (Py.pad4 m) = 4 ∧ all_chars is_digit (Py.pad4 m) = true.
Proof.
  intros Hm. split; [done|]. unfold Py.pad4. cbn [all_chars].
  rewrite !is_digit_digit; [done | | | |].
  - apply Z.mod_pos_bound; lia.
  - apply Z.mod_pos_bound; lia.
  - apply Z.mod_pos_bound; lia.
  - split; [apply Z.div_pos; lia | apply Z.div_lt_upper_bound; lia].
Qed.

Lemma round_half_even_nonneg (x : Q) :
  (0 <= x)%Q → (0 ≤ Py.round_half_even x)%Z.
Proof.
  intros Hx. unfold Py.round_half_even.
  assert (0 ≤ Qfloor x)%Z as Hf by (apply (Qfloor_resp_le 0 x Hx)).
  repeat case_match; lia.
Qed.

Lemma format_4f_nonneg (x : Q) :
  (0 <= x)%Q →
  Py.format_4f x
  = pretty (Py.round_half_even (Qabs x * 10000) / 10000)%Z +:+ "."
      +:+ Py.pad4 (Py.round_half_even (Qabs x * 10000) mod 10000).
Proof.
  intros Hx. unfold Py.format_4f.
  destruct (Qlt_le_dec x 0) as [Hneg|_]; [lra | done].
Qed.

Lemma format_4f_four_decimals (x : Q) :
  (0 <= x)%Q → four_decimals (Py.format_4f x).
Proof.
  intros Hx. rewrite format_4f_nonneg by done.
  set (n := Py.round_half_even (Qabs x * 10000)).
  assert (0 ≤ n)%Z as Hn.
  { apply round_half_even_nonneg.
    pose proof (Qabs_nonneg x). nra. }
  destruct (pretty_Z_digits (n / 10000)%Z) as [Hd Hne].
  { apply Z.div_pos; lia. }
  destruct (pad4_digits (n mod 10000)) as [Hl Hp].
  { apply Z.mod_pos_bound; lia. }
  by exists (pretty (n / 10000)%Z), (Py.pad4 (n mod 10000)).
Qed.

Lemma format_4f_wire_chars (x : Q) :
  (0 <= x)%Q → all_chars wire_char (Py.format_4f x) = true.
Proof.
  intros Hx. destruct (format_4f_four_decimals x Hx)
    as (ip & ds & -> & _ & Hip & _ & Hds).
  assert (Hdw : ∀ c, is_digit c = true → wire_char c = true).
  { intros c Hc. unfold wire_char. by rewrite Hc. }
  rewrite !all_chars_app.
  rewrite (all_chars_impl _ _ _ Hdw Hip), (all_chars_impl _ _ _ Hdw Hds).
  done.
Qed.

Lemma sorted_items_perm (ps : PauliString) :
  sorted_items ps ≡ₚ map_to_list (data ps).
Proof. apply merge_sort_Permutation. Qed.




(** ** Encoding *)

Section Encoding.
Context `{Collaborator}.

Lemma concat_str_app (l1 l2 : list string) :
  concat_str (l1 ++ l2) = concat_str l1 +:+ concat_str l2.
Proof.
  induction l1 as [|x l1 IH]; [done|].
  rewrite <- app_comm_cons. unfold concat_str in *. cbn [foldr].
  by rewrite IH, app_assoc_str.
Qed.

Lemma encode_generator_acc self angle (generator : list PauliString) acc :
  foldl (λ result ps,
           if decide (len ps = 0) then result
           else result +:+ encode_paulistring self ps angle) acc generator
  = acc +:+ concat_str
      ((λ ps, encode_paulistring self ps angle)
         <$> filter (λ ps, len ps ≠ 0) generator).
Proof.
  revert acc. induction generator as [|ps generator IH]; intros acc.
  { by rewrite app_empty_r. }
  cbn [foldl]. rewrite filter_cons, IH.
  destruct (decide (len ps = 0)) as [Hz|Hnz].
  - by rewrite decide_False by (by intros ?).
  - rewrite decide_True by done. rewrite fmap_cons.
    unfold concat_str. cbn [foldr]. by rewrite app_assoc_str.
Qed.

Lemma encode_gates_acc self variables (circuit : Circuit) acc :
  foldl (λ result gate,
           let generator := make_generator gate in
           let angle := resolve_angle gate variables in
           foldl (λ result ps,
                    if decide (len ps = 0) then result
                    else result +:+ encode_paulistring self ps angle)
                 result generator) acc circuit
  = acc +:+ concat_str
      (token_text self <$>
         (circuit ≫= λ gate,
            (λ ps, (resolve_angle gate variables, ps))
              <$> filter (λ ps, len ps ≠ 0) (make_generator gate))).
Proof.
  revert acc. induction circuit as [|gate circuit IH]; intros acc.
  { by rewrite app_empty_r. }
  cbn [foldl]. cbv zeta. rewrite IH, encode_generator_acc.
  rewrite bind_cons, fmap_app, concat_str_app, <- list_fmap_compose.
  by rewrite app_assoc_str.
Qed.

Lemma encode_tokens self circuit variables :
  encode self circuit variables
  = concat_str (token_text self <$> tokens_of circuit variables).
Proof. unfold encode. cbv zeta. by rewrite encode_gates_acc. Qed.

Lemma tokens_of_generator circuit variables angle ps :
  (angle, ps) ∈ tokens_of circuit variables →
  len ps ≠ 0
  ∧ ∃ gate, gate ∈ compile circuit ∧ ps ∈ make_generator gate
            ∧ angle = resolve_angle gate variables.
Proof.
  unfold tokens_of. intros (gate & Hin & Hgate)%list_elem_of_bind.
  apply list_elem_of_fmap in Hin as (ps' & [= -> ->] & Hps).
  apply list_elem_of_filter in Hps as [Hlen Hps]. eauto.
Qed.



End Encoding.

(** ** The round trip *)

Lemma digit_wire_char (c : ascii) : is_digit c = true → wire_char c = true.
Proof. intros Hc. unfold wire_char. by rewrite Hc. Qed.

Lemma str_item_wire_chars (kv : nat * Pauli) :
  all_chars wire_char (str_item kv) = true.
Proof.
  unfold str_item. rewrite !all_chars_app.
  destruct (pretty_nat_digits kv.1) as [Hd _].
  rewrite (all_chars_impl is_digit wire_char _ digit_wire_char Hd).
  by destruct kv.2.
Qed.

Lemma str_items_wire_chars (items : list (nat * Pauli)) :
  all_chars wire_char (concat_str (str_item <$> items)) = true.
Proof.
  induction items as [|kv items IH]; [done|].
  rewrite fmap_cons. unfold concat_str in *. cbn [foldr].
  by rewrite all_chars_app, str_item_wire_chars, IH.
Qed.

Lemma str_items_end (items : list (nat * Pauli)) :
  items ≠ [] → ∃ b, concat_str (str_item <$> items) = b +:+ ")".
Proof.
  induction items as [|kv items IH]; [done|]. intros _.
  rewrite fmap_cons. unfold concat_str in *. cbn [foldr].
  destruct items as [|kv' items].
  - exists (letter kv.2 +:+ "(" +:+ Py.str_nat kv.1).
    unfold str_item. simpl. by rewrite app_empty_r, !app_assoc_str.
  - destruct IH as [b Hb]; [done|]. exists (str_item kv +:+ b).
    by rewrite Hb, app_assoc_str.
Qed.

Lemma sorted_items_nonempty (ps : PauliString) :
  len ps ≠ 0 → sorted_items ps ≠ [].
Proof.
  unfold len. intros Hlen Hnil. apply Hlen.
  rewrite <- length_map_to_list, <- (sorted_items_perm ps), Hnil. done.
Qed.

Lemma token_body_wire_chars (ps : PauliString) (angle : Angle) :
  all_chars wire_char (token_body ps angle) = true.
Proof.
  unfold token_body. rewrite all_chars_app.
  rewrite format_4f_wire_chars by apply fix_periodicity_range.
  apply str_items_wire_chars.
Qed.

Lemma token_body_end (ps : PauliString) (angle : Angle) :
  len ps ≠ 0 → ∃ b, token_body ps angle = b +:+ ")".
Proof.
  intros Hlen. destruct (str_items_end (sorted_items ps)) as [b Hb].
  { by apply sorted_items_nonempty. }
  exists (Py.format_4f (token_coefficient ps angle) +:+ b).
  unfold token_body, str_naked.
  change (sorted_items (naked ps)) with (sorted_items ps).
  by rewrite Hb, app_assoc_str.
Qed.

Section RoundTrip.
Context `{Collaborator}.
Variables (self : Symbols) (g a : ascii).
Hypothesis Hsep : plain_separators self g a.
Hypothesis Hfloat : float_of_string "" = None.

Lemma token_text_fragment (tok : Angle * PauliString) :
  token_text self tok = token_fragment a tok +:+ String g "".
Proof.
  destruct Hsep as (Hg & Ha & _). destruct tok as [angle ps].
  unfold token_text, token_fragment, encode_paulistring, token_body,
    token_coefficient.
  rewrite Hg, Ha. destruct angle; cbn [fst snd token_prefix];
    by repeat (rewrite app_assoc_str || rewrite app_cons_str
               || rewrite app_nil_str).
Qed.

Lemma token_fragment_no_gate_separator (tok : Angle * PauliString) :
  plain_angle g a tok.1 → occurs g (token_fragment a tok) = false.
Proof.
  destruct Hsep as (_ & _ & Hgw & _ & _ & Hga).
  destruct tok as [angle ps]. unfold token_fragment. cbn [fst snd].
  intros Hplain. rewrite occurs_app. cbn [occurs].
  rewrite (all_chars_not_occurs wire_char g _ Hgw (token_body_wire_chars _ _)).
  rewrite bool_decide_eq_false_2 by (by intros ->).
  destruct angle as [x|text]; [done|].
  destruct Hplain as (_ & _ & _ & Hog & _). cbn [token_prefix].
  by rewrite Hog.
Qed.

Lemma token_fragment_stripped (tok : Angle * PauliString) :
  plain_angle g a tok.1 → len tok.2 ≠ 0 →
  Py.strip (token_fragment a tok) = token_fragment a tok
  ∧ token_fragment a tok ≠ "".
Proof.
  destruct Hsep as (_ & _ & _ & _ & Has & _).
  destruct tok as [angle ps]. unfold token_fragment. cbn [fst snd].
  intros Hplain Hlen. destruct (token_body_end ps angle Hlen) as [b ->].
  destruct angle as [x|text]; cbn [token_prefix].
  - rewrite app_nil_str. split; [by apply strip_fixed | done].
  - destruct Hplain as (Hne & Hstrip & _).
    destruct text as [|c text]; [done|].
    pose proof (stripped_head c text Hstrip) as Hc.
    rewrite app_cons_str.
    change (String a (b +:+ ")")) with (String a b +:+ ")").
    rewrite <- app_assoc_str. split; [by apply strip_fixed | done].
Qed.

Lemma token_fragment_split (tok : Angle * PauliString) :
  plain_angle g a tok.1 →
  Py.split (token_fragment a tok) (angle_separator self)
  = Ok [token_prefix tok.1; token_body tok.2 tok.1].
Proof.
  destruct Hsep as (_ & Ha & _ & Haw & _ & _).
  destruct tok as [angle ps]. unfold token_fragment. cbn [fst snd].
  intros Hplain. rewrite Ha. unfold Py.split.
  rewrite split_go_char_app.
  - rewrite split_go_char_absent; [done|].
    apply (all_chars_not_occurs wire_char a _ Haw),
      token_body_wire_chars.
  - destruct angle as [x|text]; [done|]. apply Hplain.
Qed.

Lemma decode_angle_prefix (angle : Angle) :
  plain_angle g a angle →
  decode_angle (token_prefix angle) None = decoded_angle angle.
Proof.
  unfold decode_angle. destruct angle as [x|text]; cbn [token_prefix].
  - intros _. by rewrite Hfloat.
  - intros (Hne & Hstrip & Hnum & _). rewrite Hnum, Hstrip.
    by rewrite decide_False.
Qed.

Lemma split_fragments (fragments : list string) :
  Forall (λ f, occurs g f = false) fragments →
  (let '(h, t) :=
     Py.split_go (String g "") 0
       (concat_str ((λ f, f +:+ String g "") <$> fragments)) in
   h :: t) = fragments ++ [""].
Proof.
  induction 1 as [|f fragments Hf _ IH]; [done|].
  rewrite fmap_cons. unfold concat_str in *. cbn [foldr].
  rewrite app_assoc_str, app_cons_str, app_nil_str.
  rewrite split_go_char_app by done.
  destruct (Py.split_go _ 0 _) as [h t]. by rewrite IH.
Qed.

Lemma decode_gates_tokens (tokens : list (Angle * PauliString))
    (gates circuit : Circuit) :
  Forall (λ tok, plain_angle g a tok.1 ∧ len tok.2 ≠ 0) tokens →
  Forall2 (λ tok gate, decoded_from tok.1 tok.2 gate) tokens gates →
  decode_gates self None (token_fragment a <$> tokens) circuit
  = Ok (circuit ++ gates).
Proof.
  intros Hplain Hdec. revert circuit Hplain.
  induction Hdec as [|tok gate tokens gates Htok _ IH];
    intros circuit Hplain.
  { by rewrite app_nil_r. }
  apply Forall_cons in Hplain as [[Hang Hlen] Hplain].
  rewrite fmap_cons. cbn [decode_gates].
  destruct (token_fragment_stripped tok Hang Hlen) as [-> Hne].
  rewrite decide_False by done.
  rewrite (token_fragment_split tok Hang). cbn [mbind result_bind Py.unpack2].
  destruct Htok as (p & Hp & Hgate).
  unfold decode_paulistring. rewrite Hp. cbn [mbind result_bind].
  rewrite (decode_angle_prefix _ Hang), <- Hgate, IH by done.
  by rewrite <- app_assoc.
Qed.

Lemma decode_encode (circuit : Circuit) (variables : option (gmap string Q))
    (gates : Circuit) :
  Forall (λ tok, plain_angle g a tok.1) (tokens_of circuit variables) →
  Forall2 (λ tok gate, decoded_from tok.1 tok.2 gate)
    (tokens_of circuit variables) gates →
  decode self (encode self circuit variables) None = Ok gates.
Proof.
  intros Hplain Hdec.
  assert (Htoks : Forall (λ tok, plain_angle g a tok.1 ∧ len tok.2 ≠ 0)
                    (tokens_of circuit variables)).
  { rewrite Forall_forall in Hplain |- *. intros [angle ps] Hin.
    split; [by apply Hplain|].
    by apply (tokens_of_generator circuit variables angle ps). }
  rewrite encode_tokens.
  rewrite (list_fmap_ext (token_text self)
             (λ tok, token_fragment a tok +:+ String g "") _
             (λ _ tok _, token_text_fragment tok)).
  rewrite (list_fmap_compose (token_fragment a) (λ f, f +:+ String g "")).
  unfold decode, Py.split.
  destruct Hsep as (Hg & _). rewrite Hg.
  pose proof (split_fragments (token_fragment a <$> tokens_of circuit variables))
    as Hsplit.
  destruct (Py.split_go _ 0 _) as [h t].
  rewrite Hsplit.
  - cbn [mbind result_bind]. rewrite decode_gates_snoc_empty.
    by rewrite (decode_gates_tokens _ gates []).
  - rewrite Forall_fmap. eapply Forall_impl; [exact Htoks|].
    intros tok [Hang _]. by apply token_fragment_no_gate_separator.
Qed.

End RoundTrip.

(** With plain separators and names, the decoded circuit has one gate for
    each token that [encode] emitted. *)
Lemma decode_encode_gate_count `{Collaborator} (self : Symbols) (g a : ascii)
    (circuit : Circuit) (variables : option (gmap string Q)) (gates : Circuit) :
  plain_separators self g a → float_of_string "" = None →
  Forall (λ tok, plain_angle g a tok.1) (tokens_of circuit variables) →
  Forall2 (λ tok gate, decoded_from tok.1 tok.2 gate)
    (tokens_of circuit variables) gates →
  decode self (encode self circuit variables) None = Ok gates
  ∧ length gates = length (tokens_of circuit variables).
Proof.
  intros Hsep Hfloat Hplain Hdec. split.
  - by apply (decode_encode self g a Hsep Hfloat).
  - symmetry. by eapply Forall2_length.
Qed.

Lemma Forall_exists_Forall2 {A B} (R : A → B → Prop) (l : list A) :
  Forall (λ x, ∃ y, R x y) l → ∃ k, Forall2 R l k.
Proof.
  induction 1 as [|x l [y Hy] _ [k Hk]]; [by exists [] |].
  exists (y :: k). by constructor.
Qed.






(** The same failure without any variable: when the angle separator is
    the decimal point, it occurs in every coefficient and no token of
    [encode] can be decoded. *)
Remark decode_encode_dotted_separator_fails :
  @encode Model.tq dotted_symbols half_turn_circuit None = ".2.5000X(0)|"
  ∧ @decode Model.tq dotted_symbols
      (@encode Model.tq dotted_symbols half_turn_circuit None) None
    = Raise ValueError.
Proof. split; by vm_compute. Qed.

(** The coefficient on the wire is the normalised one up to half a unit
    of the fourth decimal. *)
Lemma round_half_even_close (x : Q) :
  (Qabs (inject_Z (Py.round_half_even x) - x) <= 1 # 2)%Q.
Proof.
  unfold Py.round_half_even.
  pose proof (Qfloor_le x) as Hlo. pose proof (Qlt_floor x) as Hhi.
  rewrite inject_Z_plus in Hhi. change (inject_Z 1) with 1%Q in Hhi.
  set (f := Qfloor x) in *.
  apply Qabs_Qle_condition.
  destruct (x - inject_Z f ?= 1 # 2)%Q eqn:Hcmp.
  - apply Qeq_alt in Hcmp.
    destruct (Z.even f); rewrite ?inject_Z_plus;
      change (inject_Z 1) with 1%Q; split; lra.
  - apply Qlt_alt in Hcmp. split; lra.
  - apply Qgt_alt in Hcmp. rewrite inject_Z_plus.
    change (inject_Z 1) with 1%Q. split; lra.
Qed.

Lemma round_4f_close (x : Q) : (Qabs (round_4f x - x) <= 1 # 20000)%Q.
Proof.
  unfold round_4f.
  pose proof (round_half_even_close (x * 10000)) as Hr.
  apply Qabs_Qle_condition in Hr as [Hlo Hhi].
  apply Qabs_Qle_condition.
  set (n := inject_Z (Py.round_half_even (x * 10000))) in *.
  assert (Hn : (n / 10000 == n * (1 # 10000))%Q) by (by field).
  rewrite Hn. split; lra.
Qed.

(** The round trip of a resolved angle keeps four decimals of it: the
    angle 1/3 comes back as the coefficient 0.3333. *)
Remark decode_encode_rounds_coefficient :
  @encode Model.tq default_symbols third_circuit None = "@0.3333X(0)|"
  ∧ ∃ gate ps,
      @decode Model.tq default_symbols
        (@encode Model.tq default_symbols third_circuit None) None
      = Ok [gate]
      ∧ parameter gate = Some (Constant 1)
      ∧ paulistring gate = Some ps
      ∧ coeff ps = (3333 # 10000)%Q
      ∧ ¬ (coeff ps == 1 # 3)%Q.
Proof.
  split; [by vm_compute|]. do 2 eexists.
  split; [by vm_compute|]. split; [done|]. split; [done|].
  split; [done|]. by vm_compute.
Qed.

(** * Further properties of the codec *)

(** ** Compilation *)

Lemma compile_gate_no_hadamard (gate g : Gate) :
  g ∈ compile_gate gate → is_hadamard g = false.
Proof.
  unfold compile_gate. destruct (is_hadamard gate) eqn:Hh.
  - cbv zeta. unfold Ry, Rz. rewrite !app_nil_l.
    intros Hin. repeat (apply elem_of_cons in Hin as [->|Hin]; [done|]).
    by apply elem_of_nil in Hin.
  - intros ->%list_elem_of_singleton. exact Hh.
Qed.

Lemma compile_fixed (circuit : Circuit) :
  Forall (λ g, is_hadamard g = false) circuit → compile circuit = circuit.
Proof.
  rewrite compile_bind. induction 1 as [|g circuit Hg _ IH]; [done|].
  rewrite bind_cons, IH. unfold compile_gate. by rewrite Hg.
Qed.

(** X1. No gate of a compiled circuit is a Hadamard gate, and so
    compiling a compiled circuit changes nothing. *)
Theorem compile_idempotent (circuit : Circuit) :
  Forall (λ g, is_hadamard g = false) (compile circuit)
  ∧ compile (compile circuit) = compile circuit.
Proof.
  assert (Hno : Forall (λ g, is_hadamard g = false) (compile circuit)).
  { rewrite compile_bind. apply Forall_forall. intros g Hin.
    apply list_elem_of_bind in Hin as (gate & Hg & _).
    by apply (compile_gate_no_hadamard gate). }
  split; [exact Hno | by apply compile_fixed].
Qed.

Lemma compile_gate_length (gate : Gate) :
  1 ≤ length (compile_gate gate) ≤ 3.
Proof. unfold compile_gate. destruct (is_hadamard gate); simpl; lia. Qed.

(** X2. [compile] works gate by gate: the compiled concatenation of two
    circuits is the concatenation of the compiled circuits; it never
    drops a gate and at most triples the length. *)
Theorem compile_app (c1 c2 : Circuit) :
  compile (c1 ++ c2) = compile c1 ++ compile c2
  ∧ length c1 ≤ length (compile c1) ≤ 3 * length c1.
Proof.
  split.
  - by rewrite !compile_bind, bind_app.
  - rewrite compile_bind. induction c1 as [|g c1 IH]; [simpl; lia|].
    rewrite bind_cons, length_app. simpl.
    pose proof (compile_gate_length g). lia.
Qed.

(** ** Encoding and decoding piece by piece *)

Section Pieces.
Context `{Collaborator}.

Lemma tokens_of_app (c1 c2 : Circuit) (variables : option (gmap string Q)) :
  tokens_of (c1 ++ c2) variables
  = tokens_of c1 variables ++ tokens_of c2 variables.
Proof.
  unfold tokens_of. rewrite !compile_bind. by rewrite bind_app, bind_app.
Qed.

(** X3. [encode] is compositional: the text of a concatenation is the
    concatenation of the texts, the empty circuit has the empty text,
    and compiling beforehand does not change the text. *)
Theorem encode_app (self : Symbols) (c1 c2 : Circuit)
    (variables : option (gmap string Q)) :
  encode self (c1 ++ c2) variables
  = encode self c1 variables +:+ encode self c2 variables
  ∧ encode self [] variables = ""
  ∧ encode self (compile c1) variables = encode self c1 variables.
Proof.
  split; [|split].
  - by rewrite !encode_tokens, tokens_of_app, fmap_app, concat_str_app.
  - done.
  - rewrite !encode_tokens. unfold tokens_of.
    assert (compile (compile c1) = compile c1) as ->; [|done].
    apply compile_fixed. rewrite compile_bind. apply Forall_forall.
    intros g (gate & Hg & _)%list_elem_of_bind.
    by apply (compile_gate_no_hadamard gate).
Qed.

Lemma decode_gates_acc self variables fragments circuit :
  decode_gates self variables fragments circuit
  = (gates ← decode_gates self variables fragments []; Ok (circuit ++ gates)).
Proof.
  revert circuit. induction fragments as [|f fragments IH]; intros circuit.
  { cbn. by rewrite app_nil_r. }
  cbn [decode_gates].
  destruct (decide (Py.strip f = "")); [apply IH|].
  destruct (Py.split _ _) as [parts|]; [|done]. cbn [mbind result_bind].
  destruct (Py.unpack2 parts) as [[angle gate]|]; [|done].
  cbn [mbind result_bind].
  destruct (decode_paulistring gate) as [ps|]; [|done].
  cbn [mbind result_bind].
  rewrite (IH (circuit ++ _)), (IH ([] ++ _)).
  destruct (decode_gates self variables fragments []) as [gates|]; [|done].
  cbn [mbind result_bind]. by rewrite app_nil_l, <- app_assoc.
Qed.

Lemma decode_gates_app self variables f1 f2 circuit :
  decode_gates self variables (f1 ++ f2) circuit
  = (gates ← decode_gates self variables f1 circuit;
     decode_gates self variables f2 gates).
Proof.
  revert circuit. induction f1 as [|f f1 IH]; intros circuit; [done|].
  rewrite <- app_comm_cons. cbn [decode_gates].
  destruct (decide (Py.strip f = "")); [apply IH|].
  destruct (Py.split _ _) as [parts|]; [|done]. cbn [mbind result_bind].
  destruct (Py.unpack2 parts) as [[angle gate]|]; [|done].
  cbn [mbind result_bind].
  destruct (decode_paulistring gate) as [ps|]; [|done].
  cbn [mbind result_bind]. apply IH.
Qed.

End Pieces.

Lemma prefix_app_short (u s rest : string) :
  String.prefix u (s +:+ rest) = true → String.length u ≤ String.length s →
  String.prefix u s = true.
Proof.
  revert u. induction s as [|x s IH]; intros [|c u]; try done.
  - simpl. lia.
  - rewrite app_cons_str. simpl. destruct (ascii_dec c x); [|done].
    intros Hp Hlen. apply IH; [done | lia].
Qed.

Lemma split_go_skip_app (sep r s : string) :
  Py.split_go sep (String.length r) (r +:+ s) = Py.split_go sep 0 s.
Proof. induction r as [|x r IH]; [done|]. rewrite app_cons_str. exact IH. Qed.

Lemma split_go_app (sep s rest : string) (skip : nat) :
  sep ≠ "" → has_border sep = false → skip ≤ String.length s →
  Py.split_go sep skip (s +:+ sep +:+ rest)
  = let '(h, t) := Py.split_go sep skip s in
    let '(h2, t2) := Py.split_go sep 0 rest in
    (h, t ++ h2 :: t2).
Proof.
  intros Hne Hb. revert skip. induction s as [|x s IH]; intros skip Hskip.
  - simpl in Hskip. assert (skip = 0) as -> by lia.
    rewrite app_nil_str. destruct sep as [|c sep]; [done|].
    rewrite app_cons_str. cbn [Py.split_go].
    change (String c (sep +:+ rest)) with (String c sep +:+ rest).
    rewrite (prefix_app_l _ _ _ (prefix_refl (String c sep))).
    cbn [String.length].
    replace (S (String.length sep) - 1) with (String.length sep) by lia.
    rewrite split_go_skip_app. by destruct (Py.split_go _ 0 rest).
  - rewrite app_cons_str. cbn [Py.split_go].
    destruct skip as [|k]; [|simpl in Hskip; apply IH; lia].
    change (String x (s +:+ sep +:+ rest))
      with (String x s +:+ sep +:+ rest).
    destruct (String.prefix sep (String x s)) eqn:Hpre.
    + rewrite (prefix_app_l _ _ _ Hpre).
      apply prefix_length in Hpre. simpl in Hpre.
      rewrite IH by lia.
      destruct (Py.split_go sep _ s). by destruct (Py.split_go sep 0 rest).
    + destruct (String.prefix sep (String x s +:+ sep +:+ rest)) eqn:Hpre'.
      { exfalso.
        apply prefix_app_cases in Hpre' as [Hp|(u & Hu & Hpu)]; [congruence|].
        destruct u as [|c u].
        - rewrite app_empty_r in Hu. subst sep.
          by rewrite prefix_refl in Hpre.
        - apply prefix_app_short in Hpu.
          + by rewrite (no_border sep (String x s) (String c u) Hb) in Hpu.
          + rewrite Hu. clear. induction (String x s); simpl in *; lia. }
      rewrite IH by lia.
      destruct (Py.split_go sep 0 s). by destruct (Py.split_go sep 0 rest).
Qed.

(** X4. With a gate separator that has no border, [decode] is
    compositional: two texts joined by the separator decode to the first
    circuit followed by the second, and fail as the first text fails or
    else as the second does. *)
Theorem decode_app `{Collaborator} (self : Symbols) (s1 s2 : string)
    (variables : option (gmap string Q)) :
  has_border (gate_separator self) = false →
  decode self (s1 +:+ gate_separator self +:+ s2) variables
  = (c1 ← decode self s1 variables;
     c2 ← decode self s2 variables;
     Ok (c1 ++ c2)).
Proof.
  intros Hb. unfold decode, Py.split.
  destruct (gate_separator self) as [|c sep] eqn:Hsep; [done|].
  rewrite split_go_app by (done || lia).
  destruct (Py.split_go (String c sep) 0 s1) as [h1 t1].
  destruct (Py.split_go (String c sep) 0 s2) as [h2 t2].
  cbn [mbind result_bind].
  change (h1 :: t1 ++ h2 :: t2) with ((h1 :: t1) ++ (h2 :: t2)).
  rewrite decode_gates_app.
  destruct (decode_gates self variables (h1 :: t1) []) as [c1|]; [|done].
  cbn [mbind result_bind]. apply decode_gates_acc.
Qed.

Lemma decode_app_witness :
  @decode Model.tq default_symbols
    ("a@1.0000X(2)" +:+ gate_separator default_symbols +:+ "@2.5000X(0)|") None
  = (c1 ← @decode Model.tq default_symbols "a@1.0000X(2)" None;
     c2 ← @decode Model.tq default_symbols "@2.5000X(0)|" None;
     Ok (c1 ++ c2)).
Proof.
  apply (@decode_app Model.tq default_symbols "a@1.0000X(2)" "@2.5000X(0)|"
           None).
  reflexivity.
Defined.

(** ** Blank texts and variables at decoding *)

Lemma lstrip_blank (s : string) :
  all_chars Py.isspace s = true → Py.lstrip s = "".
Proof.
  induction s as [|x s IH]; [done|]. simpl.
  intros [Hx Hs]%andb_true_iff. rewrite Hx. by apply IH.
Qed.

Lemma strip_blank (s : string) :
  all_chars Py.isspace s = true → Py.strip s = "".
Proof. intros Hs. unfold Py.strip. by rewrite lstrip_blank. Qed.

Lemma split_go_blank (g : ascii) (s : string) :
  all_chars (blank_char g) s = true →
  let '(h, t) := Py.split_go (String g "") 0 s in
  Forall (λ f, all_chars Py.isspace f = true) (h :: t).
Proof.
  induction s as [|x s IH]; [intros _; by repeat constructor|].
  cbn [all_chars]. intros [Hx Hs]%andb_true_iff.
  rewrite split_go_char_cons. specialize (IH Hs).
  destruct (Py.split_go (String g "") 0 s) as [h t].
  apply Forall_cons in IH as [Hh Ht].
  case_bool_decide as Hxg.
  - by repeat constructor.
  - constructor; [|done]. cbn [all_chars]. rewrite Hh, andb_true_r.
    unfold blank_char in Hx. apply orb_true_iff in Hx as [Hx|Hx]; [done|].
    by apply bool_decide_eq_true in Hx.
Qed.

Lemma decode_gates_blank `{Collaborator} self variables fragments circuit :
  Forall (λ f, all_chars Py.isspace f = true) fragments →
  decode_gates self variables fragments circuit = Ok circuit.
Proof.
  induction 1 as [|f fragments Hf _ IH]; [done|].
  cbn [decode_gates]. by rewrite (strip_blank f Hf), decide_True.
Qed.

(** X5. The empty text decodes to the empty circuit, and so does every
    text made of white space and gate separators only, when the gate
    separator is one character; with an empty gate separator even the
    empty text is refused. *)
Theorem decode_blank `{Collaborator} (self : Symbols) (g : ascii)
    (text : string) (variables : option (gmap string Q)) :
  (gate_separator self = String g "" →
   all_chars (blank_char g) text = true →
   decode self text variables = Ok [])
  ∧ (gate_separator self = "" →
     decode self text variables = Raise ValueError).
Proof.
  unfold decode, Py.split. split; intros Hsep; rewrite Hsep; [|done].
  intros Hblank. pose proof (split_go_blank g text Hblank) as Hfr.
  destruct (Py.split_go (String g "") 0 text) as [h t].
  cbn [mbind result_bind]. by apply decode_gates_blank.
Qed.

Lemma decode_blank_witness :
  @decode Model.tq default_symbols " | ||  " None = Ok []
  ∧ @decode Model.tq (mkSymbols "" "@") "@1.0000X(0)" None = Raise ValueError.
Proof.
  split.
  - apply (proj1 (@decode_blank Model.tq default_symbols "|"%char " | ||  "
                    None)); reflexivity.
  - apply (proj2 (@decode_blank Model.tq (mkSymbols "" "@") "|"%char
                    "@1.0000X(0)" None)); reflexivity.
Defined.

Lemma decode_angle_no_variables `{Collaborator} (angle : string) :
  decode_angle angle None = decode_angle angle (Some ∅).
Proof.
  unfold decode_angle. destruct (float_of_string angle); [done|].
  case_decide; [done|]. by rewrite lookup_empty.
Qed.

(** X6. Decoding without variables and decoding with an empty mapping
    give the same result. *)
Theorem decode_no_variables `{Collaborator} (self : Symbols) (text : string) :
  decode self text None = decode self text (Some ∅).
Proof.
  unfold decode. destruct (Py.split _ _) as [fragments|]; [|done].
  cbn [mbind result_bind]. generalize (@nil Gate) as circuit.
  induction fragments as [|f fragments IH]; intros circuit; [done|].
  cbn [decode_gates]. case_decide; [apply IH|].
  destruct (Py.split _ _) as [parts|]; [|done]. cbn [mbind result_bind].
  destruct (Py.unpack2 parts) as [[angle gate]|]; [|done].
  cbn [mbind result_bind].
  destruct (decode_paulistring gate) as [ps|]; [|done].
  cbn [mbind result_bind]. rewrite decode_angle_no_variables. apply IH.
Qed.

Section Substitution.
Context `{Collaborator}.
Variables (self : Symbols) (g a : ascii).
Hypothesis Hsep : plain_separators self g a.
Hypothesis Hfloat : float_of_string "" = None.

Lemma decode_angle_substitutes (angle : Angle)
    (vars : option (gmap string Q)) :
  plain_angle g a angle →
  decode_angle (token_prefix angle) vars = substituted_angle vars angle.
Proof.
  unfold decode_angle. destruct angle as [x|text]; cbn [token_prefix].
  - intros _. by rewrite Hfloat.
  - intros (Hne & Hstrip & Hnum & _). rewrite Hnum, Hstrip.
    by rewrite decide_False.
Qed.

Lemma decode_gates_substitutes (vars : option (gmap string Q))
    (tokens : list (Angle * PauliString)) (gates circuit : Circuit) :
  Forall (λ tok, plain_angle g a tok.1 ∧ len tok.2 ≠ 0) tokens →
  Forall2 (λ tok gate,
             ∃ p, from_string (token_body tok.2 tok.1) = Ok [p]
                  ∧ [gate] = ExpPauli p (substituted_angle vars tok.1))
    tokens gates →
  decode_gates self vars (token_fragment a <$> tokens) circuit
  = Ok (circuit ++ gates).
Proof.
  intros Hplain Hdec. revert circuit Hplain.
  induction Hdec as [|tok gate tokens gates Htok _ IH];
    intros circuit Hplain.
  { by rewrite app_nil_r. }
  apply Forall_cons in Hplain as [[Hang Hlen] Hplain].
  rewrite fmap_cons. cbn [decode_gates].
  destruct (token_fragment_stripped self g a Hsep tok Hang Hlen) as [-> Hne].
  rewrite decide_False by done.
  rewrite (token_fragment_split self g a Hsep tok Hang).
  cbn [mbind result_bind Py.unpack2].
  destruct Htok as (p & Hp & Hgate).
  unfold decode_paulistring. rewrite Hp. cbn [mbind result_bind].
  rewrite (decode_angle_substitutes _ _ Hang), <- Hgate, IH by done.
  by rewrite <- app_assoc.
Qed.

End Substitution.

(** X7. The round trip with variables given at decoding.  Under the
    conditions of the plain round trip, [decode] with the variables
    [vars] of a text that [encode] wrote returns one gate for each
    token: the angle 1 for a token of a resolved angle, the value that
    [vars] has for the name of a symbolic token, and the name itself
    when [vars] has none. *)
Theorem decode_encode_substitutes `{Collaborator} (self : Symbols)
    (g a : ascii) (circuit : Circuit)
    (variables vars : option (gmap string Q)) :
  plain_separators self g a →
  float_of_string "" = None →
  Forall (λ tok, plain_angle g a tok.1) (tokens_of circuit variables) →
  Forall (λ tok, ∃ p, from_string (token_body tok.2 tok.1) = Ok [p])
    (tokens_of circuit variables) →
  ∃ gates,
    decode self (encode self circuit variables) vars = Ok gates
    ∧ Forall2 (λ tok gate,
                 ∃ p, from_string (token_body tok.2 tok.1) = Ok [p]
                      ∧ [gate] = ExpPauli p (substituted_angle vars tok.1))
        (tokens_of circuit variables) gates.
Proof.
  intros Hsep Hfloat Hplain Hparse.
  destruct (Forall_exists_Forall2
              (λ tok gate,
                 ∃ p, from_string (token_body tok.2 tok.1) = Ok [p]
                      ∧ [gate] = ExpPauli p (substituted_angle vars tok.1))
              (tokens_of circuit variables)) as [gates Hgates].
  { eapply Forall_impl; [exact Hparse|]. intros tok [p Hp].
    eexists. exists p. split; [exact Hp | reflexivity]. }
  exists gates. split; [|exact Hgates].
  assert (Htoks : Forall (λ tok, plain_angle g a tok.1 ∧ len tok.2 ≠ 0)
                    (tokens_of circuit variables)).
  { rewrite Forall_forall in Hplain |- *. intros [angle ps] Hin.
    split; [by apply Hplain|].
    by apply (tokens_of_generator circuit variables angle ps). }
  rewrite encode_tokens.
  rewrite (list_fmap_ext (token_text self)
             (λ tok, token_fragment a tok +:+ String g "") _
             (λ _ tok _, token_text_fragment self g a Hsep tok)).
  rewrite (list_fmap_compose (token_fragment a) (λ f, f +:+ String g "")).
  unfold decode, Py.split.
  destruct Hsep as (Hg & Hsep'). rewrite Hg.
  pose proof (split_fragments g (token_fragment a <$> tokens_of circuit variables))
    as Hsplit.
  destruct (Py.split_go _ 0 _) as [h t].
  rewrite Hsplit.
  - cbn [mbind result_bind]. rewrite decode_gates_snoc_empty.
    by rewrite (decode_gates_substitutes self g a (conj Hg Hsep') Hfloat
                  vars _ gates []).
  - rewrite Forall_fmap. eapply Forall_impl; [exact Htoks|].
    intros tok [Hang _].
    by apply (token_fragment_no_gate_separator self g a (conj Hg Hsep')).
Qed.

Lemma decode_encode_substitutes_witness :
  ∃ gates,
    @decode Model.tq default_symbols
      (@encode Model.tq default_symbols sample_circuit None)
      (Some {[ "a" := 1%Q ]}) = Ok gates
    ∧ Forall2 (λ tok gate,
                 ∃ p, @from_string Model.tq (token_body tok.2 tok.1) = Ok [p]
                      ∧ [gate]
                        = ExpPauli p
                            (substituted_angle (Some {[ "a" := 1%Q ]}) tok.1))
        (@tokens_of Model.tq sample_circuit None) gates.
Proof.
  apply (@decode_encode_substitutes Model.tq default_symbols "|"%char "@"%char
           sample_circuit None (Some {[ "a" := 1%Q ]})).
  - unfold plain_separators. repeat split; discriminate.
  - reflexivity.
  - apply Forall_forall. intros tok Hin.
    repeat (apply elem_of_cons in Hin as [->|Hin]; [by vm_compute|]).
    by apply elem_of_nil in Hin.
  - apply Forall_forall. intros tok Hin.
    repeat (apply elem_of_cons in Hin as [->|Hin];
            [eexists; by vm_compute|]).
    by apply elem_of_nil in Hin.
Defined.

(** ** Periodicity on the wire *)










(** ** Pruning twice *)

Lemma prune_gates_ok_resolved variables threshold circuit gates result :
  prune_gates variables threshold circuit gates = Ok result →
  Forall (resolved variables) circuit.
Proof.
  revert gates. induction circuit as [|gate circuit IH]; intros gates;
    [constructor|].
  cbn [prune_gates]. destruct (parameter gate) as [p|] eqn:Hp.
  - destruct (call_param p variables) as [v|] eqn:Hv; [|done].
    intros Hok. constructor.
    + intros p' Hp'. rewrite Hp in Hp'. injection Hp' as <-. by rewrite Hv.
    + destruct (negb _); by eapply IH.
  - intros Hok. constructor; [|by eapply IH].
    intros p' Hp'. by rewrite Hp in Hp'.
Qed.

Lemma filter_same_length {A} (P : A → Prop) `{!∀ x, Decision (P x)}
    (l : list A) :
  length (filter P l) = length l → filter P l = l.
Proof.
  induction l as [|x l IH]; [done|]. rewrite filter_cons.
  destruct (decide (P x)); simpl.
  - intros [= Hlen]. by rewrite IH.
  - pose proof (length_filter P l). lia.
Qed.

(** X9. What [prune_circuit] returns is a sublist of the circuit; it
    prints its line exactly when it dropped a gate; and pruning the
    result again with the same variables and threshold returns it
    unchanged and prints nothing. *)
Theorem prune_circuit_idempotent (circuit gates : Circuit)
    (variables : option (gmap string Q)) (threshold : Q)
    (printed : list string) :
  prune_circuit circuit variables threshold = Ok (gates, printed) →
  gates `sublist_of` circuit
  ∧ (printed = [] ↔ gates = circuit)
  ∧ prune_circuit gates variables threshold = Ok (gates, []).
Proof.
  unfold prune_circuit.
  destruct (prune_gates variables threshold circuit []) as [kept|] eqn:Hk;
    [|done].
  pose proof (prune_gates_ok_resolved _ _ _ _ _ Hk) as Hres.
  rewrite prune_gates_resolved in Hk by done. rewrite app_nil_l in Hk.
  injection Hk as <-. cbn [mbind result_bind].
  set (P := λ g, survives variables threshold g = true).
  intros [= <- <-]. split; [apply sublist_filter|]. split.
  - case_decide as Hlen.
    + split; [done|]. intros Heq. by rewrite Heq in Hlen.
    + split; [|done]. intros _. apply filter_same_length.
      destruct (decide (length (filter P circuit) = length circuit)); done.
  - rewrite prune_gates_resolved.
    + cbn [mbind result_bind]. rewrite app_nil_l.
      rewrite list_filter_filter.
      rewrite (list_filter_iff _ P) by (intros g; tauto).
      by rewrite decide_False by (intros Hne; by apply Hne).
    + apply Forall_forall. intros g Hg%list_elem_of_filter.
      rewrite Forall_forall in Hres. apply Hres, Hg.
Qed.

Lemma prune_circuit_idempotent_witness :
  [upper_band_gate; Model.H 0 []] `sublist_of` pruned_example
  ∧ (["pruned from 3 to 2"] = [] ↔ [upper_band_gate; Model.H 0 []] = pruned_example)
  ∧ prune_circuit [upper_band_gate; Model.H 0 []] None default_threshold
    = Ok ([upper_band_gate; Model.H 0 []], []).
Proof.
  apply (prune_circuit_idempotent pruned_example
           [upper_band_gate; Model.H 0 []] None default_threshold
           ["pruned from 3 to 2"]).
  by vm_compute.
Defined.

(** ** Construction, in general *)

Lemma symbols_of_setitem (st : Store) (e e0 : Instance)
    (update : Symbols → Symbols) (syms : Symbols) :
  attrs e = ∅ → attrs e0 = ∅ → symbols_of st e0 = Some syms →
  symbols_of (setitem_symbols st e update) e0 = Some (update syms).
Proof.
  unfold symbols_of, setitem_symbols, getattr_symbols.
  intros -> ->. rewrite !lookup_empty.
  destruct (class_attrs st !! "_symbols") as [l|] eqn:Hl; [|done].
  cbn [mbind option_bind objects class_attrs]. rewrite Hl.
  cbn [mbind option_bind]. intros Hsyms. by rewrite lookup_alter_eq, Hsyms.
Qed.

(** X10. Constructing an encoder never gives the new instance separators
    of its own: the arguments that are given are written into the dict
    that the instances share, an argument left out keeps what that dict
    has at the time and does not bring the default back, and afterwards
    the new instance and the older ones observe the same separators. *)
Theorem init_writes_shared (st st' : Store) (e e0 : Instance)
    (g a : option string) (syms : Symbols) :
  init g a st = (st', e) →
  attrs e0 = ∅ → symbols_of st e0 = Some syms →
  attrs e = ∅
  ∧ symbols_of st' e0
    = Some {| gate_separator := default (gate_separator syms) g;
              angle_separator := default (angle_separator syms) a |}
  ∧ symbols_of st' e = symbols_of st' e0.
Proof.
  unfold init. intros [= <- <-] He0 Hsyms.
  split; [done|].
  assert (Hsame : ∀ s, symbols_of s {| attrs := ∅ |} = symbols_of s e0).
  { intros s. unfold symbols_of, getattr_symbols. by rewrite He0. }
  split; [|apply Hsame].
  destruct g as [g|], a as [a|]; cbn [default].
  - rewrite (symbols_of_setitem _ _ e0 _ (set_gate_separator g syms));
      [done..|].
    by apply symbols_of_setitem.
  - by rewrite (symbols_of_setitem _ _ e0 _ syms).
  - rewrite (symbols_of_setitem _ _ e0 _ syms); [|done..].
    by destruct syms.
  - rewrite Hsyms. by destruct syms.
Qed.

Lemma init_writes_shared_witness :
  attrs (init None None (init (Some ";") None class_body).1).2 = ∅
  ∧ symbols_of (init None None (init (Some ";") None class_body).1).1
      {| attrs := ∅ |}
    = Some {| gate_separator := default ";" None;
              angle_separator := default "@" None |}
  ∧ symbols_of (init None None (init (Some ";") None class_body).1).1
      (init None None (init (Some ";") None class_body).1).2
    = symbols_of (init None None (init (Some ";") None class_body).1).1
        {| attrs := ∅ |}.
Proof.
  apply (init_writes_shared (init (Some ";") None class_body).1 _ _
           {| attrs := ∅ |} None None
           {| gate_separator := ";"; angle_separator := "@" |});
    reflexivity.
Defined.

(** * Properties of the circuit generator *)

Section DictFacts.
Context {K V : Type} `{EqDecision K}.
Implicit Types (d items : list (K * V)).

Lemma dict_get_set (k k' : K) (v : V) d :
  Gen.dict_get k' (Gen.dict_set k v d)
  = if decide (k = k') then Some v else Gen.dict_get k' d.
Proof.
  induction d as [|[k0 v0] d IH]; simpl.
  - by destruct (decide (k = k')).
  - destruct (decide (k0 = k)) as [->|Hk0]; simpl.
    + by destruct (decide (k = k')).
    + rewrite IH. destruct (decide (k0 = k')) as [->|]; [|done].
      by rewrite decide_False.
Qed.

Lemma dict_set_fresh (k : K) (v : V) d :
  k ∉ d.*1 → Gen.dict_set k v d = d ++ [(k, v)].
Proof.
  induction d as [|[k0 v0] d IH]; [done|]. simpl.
  intros Hk. apply not_elem_of_cons in Hk as [Hne Hk].
  rewrite decide_False by done. by rewrite IH.
Qed.

Lemma dict_update_fresh d items :
  NoDup (d.*1 ++ items.*1) → Gen.dict_update d items = d ++ items.
Proof.
  revert d. induction items as [|[k v] items IH]; intros d Hnd.
  { by rewrite app_nil_r. }
  unfold Gen.dict_update in *. cbn [foldl fst snd].
  rewrite fmap_cons in Hnd.
  rewrite dict_set_fresh.
  - rewrite IH; [by rewrite <- app_assoc|].
    rewrite fmap_app. simpl. rewrite <- app_assoc. exact Hnd.
  - apply NoDup_app in Hnd as (_ & Hdisj & _). intros Hin.
    apply (Hdisj k Hin). simpl. left.
Qed.

Lemma dict_get_None (k : K) d : k ∉ d.*1 → Gen.dict_get k d = None.
Proof.
  induction d as [|[k0 v0] d IH]; [done|]. simpl.
  intros Hk. apply not_elem_of_cons in Hk as [Hne Hk].
  rewrite decide_False by done. by apply IH.
Qed.

Lemma dict_get_app (k : K) d1 d2 :
  Gen.dict_get k (d1 ++ d2)
  = match Gen.dict_get k d1 with
    | Some v => Some v
    | None => Gen.dict_get k d2
    end.
Proof.
  induction d1 as [|[k0 v0] d1 IH]; [done|]. simpl.
  by destruct (decide (k0 = k)).
Qed.

Lemma dict_get_fmap (f : K → V) (k : K) (l : list K) :
  Gen.dict_get k ((λ k, (k, f k)) <$> l)
  = if decide (k ∈ l) then Some (f k) else None.
Proof.
  induction l as [|k0 l IH].
  - rewrite decide_False; [done | apply not_elem_of_nil].
  - rewrite fmap_cons. cbn [Gen.dict_get].
    destruct (decide (k0 = k)) as [->|Hne].
    + rewrite decide_True; [done | left].
    + rewrite IH. destruct (decide (k ∈ l)) as [Hin|Hin].
      * rewrite decide_True; [done | by right].
      * rewrite decide_False; [done|].
        intros [->|Hin']%elem_of_cons; done.
Qed.

(** The value that a display or comprehension leaves for a key is that
    of its last item with the key. *)
Lemma dict_get_update (k : K) d items :
  Gen.dict_get k (Gen.dict_update d items)
  = match last (filter (λ kv, kv.1 = k) items) with
    | Some kv => Some kv.2
    | None => Gen.dict_get k d
    end.
Proof.
  revert d. induction items as [|[k0 v0] items IH]; intros d; [done|].
  unfold Gen.dict_update in *. cbn [foldl fst snd]. rewrite IH.
  rewrite filter_cons. cbn [fst].
  destruct (decide (k0 = k)) as [->|Hne].
  - destruct (filter _ items) as [|kv l] eqn:Hf.
    + simpl. rewrite dict_get_set. by rewrite decide_True.
    + rewrite last_cons_cons.
      destruct (last (kv :: l)) eqn:Hl; [done|].
      by apply last_None in Hl.
  - destruct (last _); [done|]. rewrite dict_get_set.
    by rewrite decide_False.
Qed.

End DictFacts.

Lemma elem_of_range (a b x : Z) : x ∈ Gen.range a b ↔ (a ≤ x < b)%Z.
Proof.
  unfold Gen.range. rewrite list_elem_of_fmap. split.
  - intros (i & -> & Hi%elem_of_seq). lia.
  - intros Hx. exists (Z.to_nat (x - a)). split; [lia|].
    apply elem_of_seq. lia.
Qed.

Lemma NoDup_range (a b : Z) : NoDup (Gen.range a b).
Proof.
  unfold Gen.range. apply NoDup_fmap_2; [|apply NoDup_seq].
  intros i j Hij. lia.
Qed.

Lemma length_range (a b : Z) : length (Gen.range a b) = Z.to_nat (b - a).
Proof. unfold Gen.range. by rewrite length_fmap, length_seq. Qed.

Lemma fmap_fst_graph {A B} (f : A → B) (l : list A) :
  ((λ k, (k, f k)) <$> l).*1 = l.
Proof. induction l as [|x l IH]; [done|]. cbn. by f_equal. Qed.

Lemma comprehension_range {V} (f : Z → V) (a b : Z) :
  Gen.dict_update [] ((λ k, (k, f k)) <$> Gen.range a b)
  = (λ k, (k, f k)) <$> Gen.range a b.
Proof.
  rewrite dict_update_fresh; [done|].
  simpl. rewrite fmap_fst_graph. apply NoDup_range.
Qed.

Lemma range_app (a m b : Z) :
  (a ≤ m ≤ b)%Z → Gen.range a b = Gen.range a m ++ Gen.range m b.
Proof.
  intros Hm. unfold Gen.range.
  replace (Z.to_nat (b - a)) with (Z.to_nat (m - a) + Z.to_nat (b - m))%nat
    by lia.
  rewrite seq_app, fmap_app. f_equal.
  assert (seq (0 + Z.to_nat (m - a)) (Z.to_nat (b - m))
          = Nat.add (Z.to_nat (m - a)) <$> seq 0 (Z.to_nat (b - m))) as ->.
  { rewrite fmap_add_seq. f_equal. lia. }
  rewrite <- list_fmap_compose.
  apply list_fmap_ext. intros i x _. simpl. lia.
Qed.

Lemma range_one (a : Z) : Gen.range a (a + 1) = [a].
Proof.
  unfold Gen.range. replace (Z.to_nat (a + 1 - a)) with 1%nat by lia.
  simpl. f_equal. lia.
Qed.

Lemma range_empty (a b : Z) : (b ≤ a)%Z → Gen.range a b = [].
Proof.
  intros Hb. unfold Gen.range.
  by replace (Z.to_nat (b - a)) with 0%nat by lia.
Qed.

Lemma succ_mod (k n : Z) :
  (0 ≤ k < n)%Z →
  ((k + 1) mod n = if decide (k + 1 = n) then 0 else k + 1)%Z.
Proof.
  intros Hk. destruct (decide (k + 1 = n)%Z) as [->|Hne].
  - apply Z_mod_same_full.
  - apply Z.mod_small. lia.
Qed.

Lemma pred_mod (k n : Z) :
  (0 ≤ k < n)%Z →
  ((k - 1) mod n = if decide (k = 0) then n - 1 else k - 1)%Z.
Proof.
  intros Hk. destruct (decide (k = 0)%Z) as [->|Hne].
  - symmetry. apply (Z.mod_unique_pos _ _ (-1)); lia.
  - apply Z.mod_small. lia.
Qed.

Lemma local_line_items (n : Z) :
  (2 ≤ n)%Z →
  Gen.local_line n
  = (0%Z, [1%Z])
      :: ((λ k, (k, [(k + 1)%Z; (k - 1)%Z])) <$> Gen.range 1 (n - 1))
      ++ [((n - 1)%Z, [(n - 2)%Z])].
Proof.
  intros Hn. unfold Gen.local_line.
  change (Gen.dict_update [] [(0%Z, [1%Z])]) with [(0%Z, [1%Z])].
  assert (NoDup (0%Z :: Gen.range 1 (n - 1) ++ [(n - 1)%Z])) as Hnd.
  { replace (0%Z :: Gen.range 1 (n - 1) ++ [(n - 1)%Z])
      with (Gen.range 0 n); [apply NoDup_range|].
    rewrite (range_app 0 1 n) by lia.
    rewrite (range_app 1 (n - 1) n) by lia.
    change (Gen.range 0 1) with [0%Z].
    replace (Gen.range (n - 1) n) with [(n - 1)%Z]; [done|].
    rewrite <- (range_one (n - 1)). f_equal. lia. }
  change (0%Z :: Gen.range 1 (n - 1) ++ [(n - 1)%Z])
    with ((0%Z :: Gen.range 1 (n - 1)) ++ [(n - 1)%Z]) in Hnd.
  rewrite (dict_update_fresh [(0%Z, [1%Z])]).
  - rewrite dict_update_fresh; [done|].
    cbn [app]. rewrite fmap_cons, fmap_fst_graph. exact Hnd.
  - cbn [app]. rewrite fmap_cons, fmap_fst_graph.
    by apply NoDup_app in Hnd as (? & _ & _).
Qed.

Lemma init_unfold depth conn n gens angles self :
  Gen.init depth conn n gens angles = Gen.Return self →
  ∃ (base : gmap string Gen.Attr) l d,
    self = <["_fix_angles" :=
               Gen.AttrFixAngles
                 (Gen.dict_update []
                    ((λ kv, (Gen.upper kv.1, kv.2)) <$> default [] angles))]>
             (<["_max_depth" := Gen.AttrDepth d]>
                (<["_generators" := Gen.AttrGenerators l]> base))
    ∧ d = default (default 0%Z n) depth
    ∧ (depth = None → is_Some n)
    ∧ iterable gens
    ∧ l = match gens with
          | Gen.GensList l => Gen.normalise <$> l
          | _ => Gen.default_generators
          end
    ∧ match conn with
      | Gen.ConnDict _ => base = ∅
      | _ =>
          ∃ n' m,
            n = Some n'
            ∧ Gen.make_connectivity_map
                (Gen.KeyText match conn with
                             | Gen.ConnText key => key
                             | _ => "all_to_all"
                             end) (Some n')
              = Gen.Return m
            ∧ base = {[ "_connectivity" := Gen.AttrConnectivity m ]}
      end.
Proof.
  unfold Gen.init. intros Hinit.
  destruct conn as [|key|dict]; cbn [mbind Gen.outcome_bind] in Hinit.
  - destruct n as [n'|]; [|done].
    change (Gen.make_connectivity_map (Gen.KeyText "all_to_all") (Some n'))
      with (Gen.Return (A := list (Z * list Z)) (Gen.all_to_all n')) in *.
    cbn [mbind Gen.outcome_bind] in Hinit.
    destruct gens as [|l|text]; [| |done];
      cbn [mbind Gen.outcome_bind] in Hinit;
      (destruct depth as [depth|]; cbn [mbind Gen.outcome_bind] in Hinit;
       injection Hinit as <-;
       eexists _, _, _; repeat split; try done; try (by eexists);
       eexists _, _; repeat split; done).
  - destruct n as [n'|]; [|done].
    destruct (Gen.make_connectivity_map (Gen.KeyText key) (Some n'))
      as [m|e] eqn:Hm; [|done].
    cbn [mbind Gen.outcome_bind] in Hinit.
    destruct gens as [|l|text]; [| |done];
      cbn [mbind Gen.outcome_bind] in Hinit;
      (destruct depth as [depth|]; cbn [mbind Gen.outcome_bind] in Hinit;
       injection Hinit as <-;
       eexists _, _, _; repeat split; try done; try (by eexists);
       eexists _, _; repeat split; done).
  - destruct gens as [|l|text]; [| |done];
      cbn [mbind Gen.outcome_bind] in Hinit;
      (destruct depth as [depth|]; cbn [mbind Gen.outcome_bind] in Hinit;
       [|destruct n as [n'|]; [|done]];
       cbn [mbind Gen.outcome_bind] in Hinit;
       injection Hinit as <-;
       eexists _, _, _; repeat split; try done; by eexists).
Qed.

(** X11. [make_connectivity_map] fails without [n_qubits], for a circuit
    and for an unknown key, whose text the error carries; a known key
    counts whatever its case. *)
Theorem make_connectivity_map_errors :
  (∀ key,
     Gen.make_connectivity_map (Gen.KeyText key) None
     = Gen.Throw (Gen.GenException
                    "make_connectivity_map from key needs n_qubits"))
  ∧ (∀ circuit n,
       Gen.make_connectivity_map (Gen.KeyCircuit circuit) n
       = Gen.Throw (Gen.NotImplementedError "still missing"))
  ∧ (∀ key n,
       Py.lower key ∉ known_keys →
       Gen.make_connectivity_map (Gen.KeyText key) (Some n)
       = Gen.Throw (Gen.GenException
                      ("unknown key to create connectivity_map: " +:+ key)))
  ∧ (∀ key key' n,
       Py.lower key ∈ known_keys →
       Py.lower key' = Py.lower key →
       ∃ d, Gen.make_connectivity_map (Gen.KeyText key) (Some n)
            = Gen.Return d
            ∧ Gen.make_connectivity_map (Gen.KeyText key') (Some n)
              = Gen.Return d).
Proof.
  repeat split; try done.
  - intros key n Hkey. unfold known_keys in Hkey.
    rewrite !not_elem_of_cons in Hkey. destruct Hkey as (H1 & H2 & H3 & _).
    unfold Gen.make_connectivity_map.
    by rewrite !decide_False.
  - intros key key' n Hkey Hsame. unfold Gen.make_connectivity_map.
    rewrite Hsame. unfold known_keys in Hkey.
    rewrite !elem_of_cons in Hkey.
    repeat case_decide; try (by eexists).
    destruct Hkey as [?|[?|[?|Hnil]]]; try done.
    by apply elem_of_nil in Hnil.
Qed.

(** X12. The map of [all_to_all]: the qubits are [range(n_qubits)] in
    this order, and the neighbours of a qubit are all the others. *)
Theorem all_to_all_connectivity (n : Z) :
  ∃ d,
    Gen.make_connectivity_map (Gen.KeyText "all_to_all") (Some n)
    = Gen.Return d
    ∧ d.*1 = Gen.range 0 n
    ∧ ∀ k l, Gen.neighbour d k l ↔ (0 ≤ k < n ∧ 0 ≤ l < n ∧ l ≠ k)%Z.
Proof.
  exists (Gen.all_to_all n). split; [done|].
  unfold Gen.all_to_all. rewrite comprehension_range. split.
  { apply fmap_fst_graph. }
  intros k l. unfold Gen.neighbour.
  rewrite (dict_get_fmap (λ k, filter (λ l, l ≠ k) (Gen.range 0 n))).
  destruct (decide (k ∈ Gen.range 0 n)) as [Hk|Hk];
    rewrite elem_of_range in Hk.
  - split.
    + intros (ns & [= <-] & Hl).
      apply list_elem_of_filter in Hl as [Hne Hl].
      apply elem_of_range in Hl. done.
    + intros (_ & Hl & Hne). eexists. split; [done|].
      apply list_elem_of_filter. split; [done|]. by apply elem_of_range.
  - split; [by intros (ns & ? & _)|]. intros (? & _). done.
Qed.

(** X13. The map of [local_ring]: the qubits are [range(n_qubits)], the
    neighbours of [k] are its successor and its predecessor modulo
    [n_qubits], the relation is symmetric and stays among the qubits,
    and a qubit is its own neighbour exactly when it is the only one. *)
Theorem local_ring_connectivity (n : Z) :
  ∃ d,
    Gen.make_connectivity_map (Gen.KeyText "local_ring") (Some n)
    = Gen.Return d
    ∧ d.*1 = Gen.range 0 n
    ∧ (∀ k l,
         Gen.neighbour d k l
         ↔ (0 ≤ k < n ∧ (l = (k + 1) mod n ∨ l = (k - 1) mod n))%Z)
    ∧ (∀ k l,
         Gen.neighbour d k l →
         (0 ≤ l < n)%Z ∧ Gen.neighbour d l k ∧ (l = k ↔ n = 1%Z)).
Proof.
  exists (Gen.local_ring n). split; [done|].
  unfold Gen.local_ring. rewrite comprehension_range.
  split; [apply fmap_fst_graph|].
  assert (∀ k l,
            Gen.neighbour
              ((λ k : Z, (k, [((k + 1) mod n)%Z; ((k - 1) mod n)%Z]))
                 <$> Gen.range 0 n) k l
            ↔ (0 ≤ k < n ∧ (l = (k + 1) mod n ∨ l = (k - 1) mod n))%Z)
    as Hchar.
  { intros k l. unfold Gen.neighbour.
    rewrite (dict_get_fmap (λ k, [((k + 1) mod n)%Z; ((k - 1) mod n)%Z])).
    destruct (decide (k ∈ Gen.range 0 n)) as [Hk|Hk];
      rewrite elem_of_range in Hk.
    - split.
      + intros (ns & [= <-] & Hl).
        rewrite !elem_of_cons in Hl. destruct Hl as [?|[?|Hnil]]; auto.
        by apply elem_of_nil in Hnil.
      + intros (_ & Hl). eexists. split; [done|].
        rewrite !elem_of_cons. tauto.
    - split; [by intros (ns & ? & _)|]. intros (? & _). done. }
  split; [exact Hchar|].
  intros k l Hkl. rewrite !Hchar. apply Hchar in Hkl as (Hk & Hl).
  rewrite (succ_mod k n), (pred_mod k n) in Hl by done.
  assert (0 ≤ l < n)%Z as Hlr by (repeat case_decide; lia).
  rewrite (succ_mod l n), (pred_mod l n) by done.
  repeat case_decide; lia.
Qed.

(** X14. The map of [local_line]: from two qubits on the qubits are
    [range(n_qubits)] and the neighbours of [k] are [k + 1] and [k - 1]
    where they are qubits; for one qubit the map gives it the neighbour
    [-1], and for none it still has the keys [0] and [n_qubits - 1]. *)
Theorem local_line_connectivity (n : Z) :
  ∃ d,
    Gen.make_connectivity_map (Gen.KeyText "local_line") (Some n)
    = Gen.Return d
    ∧ ((2 ≤ n)%Z →
       d.*1 = Gen.range 0 n
       ∧ ∀ k l,
           Gen.neighbour d k l
           ↔ (0 ≤ k < n ∧ 0 ≤ l < n ∧ (l = k + 1 ∨ l = k - 1))%Z)
    ∧ (n = 1%Z → d = [(0%Z, [(-1)%Z])])
    ∧ ((n ≤ 0)%Z → d = [(0%Z, [1%Z]); ((n - 1)%Z, [(n - 2)%Z])]).
Proof.
  exists (Gen.local_line n). split; [done|]. split; [|split].
  - intros Hn. rewrite local_line_items by done. split.
    + rewrite fmap_cons, fmap_app, fmap_fst_graph. cbn [fmap list_fmap fst].
      rewrite (range_app 0 1 n), (range_app 1 (n - 1) n) by lia.
      change (Gen.range 0 1) with [0%Z].
      replace (Gen.range (n - 1) n) with [(n - 1)%Z]; [done|].
      rewrite <- (range_one (n - 1)). f_equal. lia.
    + intros k l. unfold Gen.neighbour. cbn [Gen.dict_get].
      rewrite dict_get_app.
      rewrite (dict_get_fmap (λ k, [(k + 1)%Z; (k - 1)%Z])).
      cbn [Gen.dict_get].
      destruct (decide (0 = k)%Z) as [<-|Hk0].
      { split.
        - intros (ns & [= <-] & Hl). apply list_elem_of_singleton in Hl. lia.
        - intros (_ & Hl & Hn'). eexists. split; [done|].
          apply list_elem_of_singleton. lia. }
      destruct (decide (k ∈ Gen.range 1 (n - 1))) as [Hk|Hk];
        rewrite elem_of_range in Hk.
      { split.
        - intros (ns & [= <-] & Hl). rewrite !elem_of_cons in Hl.
          destruct Hl as [?|[?|Hnil]]; [lia|lia|].
          by apply elem_of_nil in Hnil.
        - intros (_ & Hl & Hn'). eexists. split; [done|].
          rewrite !elem_of_cons. tauto. }
      destruct (decide (n - 1 = k)%Z) as [<-|Hkn].
      { split.
        - intros (ns & [= <-] & Hl). apply list_elem_of_singleton in Hl. lia.
        - intros (_ & Hl & Hn'). eexists. split; [done|].
          apply list_elem_of_singleton. lia. }
      split; [by intros (ns & ? & _)|]. lia.
  - by intros ->.
  - intros Hn. unfold Gen.local_line.
    rewrite (range_empty 1 (n - 1)) by lia.
    unfold Gen.dict_update. cbn [fmap list_fmap foldl fst snd Gen.dict_set].
    rewrite decide_False by lia. done.
Qed.

Lemma init_getters (base : gmap string Gen.Attr) l d fa :
  let self :=
    <["_fix_angles" := Gen.AttrFixAngles fa]>
      (<["_max_depth" := Gen.AttrDepth d]>
         (<["_generators" := Gen.AttrGenerators l]> base)) in
  Gen.connectivity self = Gen.connectivity base
  ∧ Gen.max_coupling self = Gen.max_coupling base
  ∧ Gen.max_depth self = Gen.Return d
  ∧ Gen.generators self = Gen.Return l
  ∧ Gen.fix_angles self = Gen.Return fa.
Proof.
  unfold Gen.connectivity, Gen.max_coupling, Gen.max_depth, Gen.generators,
    Gen.fix_angles. cbv zeta. repeat split.
  - by rewrite !lookup_insert_ne by done.
  - by rewrite !lookup_insert_ne by done.
  - rewrite lookup_insert_ne by done. by rewrite lookup_insert_eq.
  - rewrite !lookup_insert_ne by done. by rewrite lookup_insert_eq.
  - by rewrite lookup_insert_eq.
Qed.

Lemma connectivity_singleton m :
  Gen.connectivity {[ "_connectivity" := Gen.AttrConnectivity m ]}
  = Gen.Return m
  ∧ Gen.max_coupling {[ "_connectivity" := Gen.AttrConnectivity m ]}
    = Gen.Throw (Gen.AttributeError "_max_coupling").
Proof.
  unfold Gen.connectivity, Gen.max_coupling.
  rewrite lookup_singleton_eq. by rewrite lookup_singleton_ne.
Qed.

Lemma make_connectivity_map_known key n d :
  Gen.make_connectivity_map (Gen.KeyText key) (Some n) = Gen.Return d →
  Py.lower key ∈ known_keys.
Proof.
  unfold Gen.make_connectivity_map, known_keys. rewrite !elem_of_cons.
  repeat case_decide; try done; auto.
Qed.

Lemma make_connectivity_map_keys key n :
  Py.lower key ∈ known_keys → (1 ≤ n)%Z →
  ∃ d, Gen.make_connectivity_map (Gen.KeyText key) (Some n) = Gen.Return d
       ∧ d.*1 = Gen.range 0 n.
Proof.
  intros Hkey Hn. unfold Gen.make_connectivity_map.
  unfold known_keys in Hkey. rewrite !elem_of_cons in Hkey.
  repeat case_decide.
  - eexists. split; [done|]. unfold Gen.all_to_all.
    rewrite comprehension_range. apply fmap_fst_graph.
  - eexists. split; [done|].
    destruct (decide (n = 1%Z)) as [->|Hn1]; [done|].
    rewrite local_line_items by lia.
    rewrite fmap_cons, fmap_app, fmap_fst_graph. cbn [fmap list_fmap fst].
    rewrite (range_app 0 1 n), (range_app 1 (n - 1) n) by lia.
    change (Gen.range 0 1) with [0%Z].
    replace (Gen.range (n - 1) n) with [(n - 1)%Z]; [done|].
    rewrite <- (range_one (n - 1)). f_equal. lia.
  - eexists. split; [done|]. unfold Gen.local_ring.
    rewrite comprehension_range. apply fmap_fst_graph.
  - destruct Hkey as [?|[?|[?|Hnil]]]; try done.
    by apply elem_of_nil in Hnil.
Qed.

Lemma init_returns depth conn n gens angles :
  is_dict conn ∨ (builds_connectivity conn ∧ is_Some n) →
  iterable gens →
  is_Some depth ∨ is_Some n →
  ∃ self, Gen.init depth conn n gens angles = Gen.Return self.
Proof.
  intros Hconn Hgens Hdepth. unfold Gen.init.
  assert (∃ base : gmap string Gen.Attr,
            match match conn with
                  | Gen.ConnNone => Gen.ConnText "all_to_all"
                  | _ => conn
                  end with
            | Gen.ConnText key =>
                match n with
                | None =>
                    Gen.Throw
                      (Gen.GenException
                         ("need to pass n_qubits if connectivity is "
                          +:+ "automatically generated from key=" +:+ key))
                | Some _ =>
                    m ← Gen.make_connectivity_map (Gen.KeyText key) n;
                    Gen.Return
                      (<["_connectivity" := Gen.AttrConnectivity m]>
                         (∅ : gmap string Gen.Attr))
                end
            | _ => Gen.Return ∅
            end = Gen.Return base) as [base ->].
  { destruct conn as [|key|dict].
    - destruct Hconn as [[]|[_ [n' ->]]]. by eexists.
    - destruct Hconn as [[]|[Hkey [n' ->]]].
      unfold Gen.make_connectivity_map. simpl in Hkey.
      unfold known_keys in Hkey. rewrite !elem_of_cons in Hkey.
      repeat case_decide; try (by eexists).
      destruct Hkey as [?|[?|[?|Hnil]]]; try done.
      by apply elem_of_nil in Hnil.
    - by eexists. }
  cbn [mbind Gen.outcome_bind].
  destruct gens as [|l|text]; [| |done]; cbn [mbind Gen.outcome_bind].
  - destruct depth as [depth|]; [by eexists|].
    destruct Hdepth as [[? [=]]|[n' ->]]. by eexists.
  - destruct depth as [depth|]; [by eexists|].
    destruct Hdepth as [[? [=]]|[n' ->]]. by eexists.
Qed.

Lemma normalise_same_letters (x y : string) :
  same_letters x y → Gen.normalise x = Gen.normalise y.
Proof.
  unfold same_letters, Gen.normalise, Gen.sorted_text. intros Hperm.
  assert (merge_sort Gen.char_le (String.list_ascii_of_string x)
          = merge_sort Gen.char_le (String.list_ascii_of_string y)) as Heq.
  { apply (Sorted_unique Gen.char_le).
    - apply (Sorted_merge_sort Gen.char_le).
    - apply (Sorted_merge_sort Gen.char_le).
    - by rewrite !merge_sort_Permutation. }
  by rewrite Heq.
Qed.

(** X15. [__init__] of the generator succeeds exactly when the
    connectivity is a dict, or a known key (or left out) together with
    [n_qubits]; the generators are iterable (or left out); and [depth] or
    [n_qubits] is given.  A key without [n_qubits] is the first error
    raised. *)
Theorem generator_init_succeeds_iff depth conn n gens angles :
  ((∃ self, Gen.init depth conn n gens angles = Gen.Return self)
   ↔ (is_dict conn ∨ (builds_connectivity conn ∧ is_Some n))
     ∧ iterable gens
     ∧ (is_Some depth ∨ is_Some n))
  ∧ (¬ is_dict conn →
     Gen.init depth conn None gens angles
     = Gen.Throw
         (Gen.GenException
            ("need to pass n_qubits if connectivity is "
             +:+ "automatically generated from key=" +:+ key_of conn))).
Proof.
  split; [split|].
  - intros [self Hinit].
    apply init_unfold in Hinit
      as (base & l & d & _ & _ & Hdepth & Hgens & _ & Hconn).
    split; [|split; [done|]].
    + destruct conn as [|key|dict]; [right|right|by left].
      * destruct Hconn as (n' & m & -> & _ & _). split; [exact I|by eexists].
      * destruct Hconn as (n' & m & -> & Hm & _). split; [|by eexists].
        by apply make_connectivity_map_known in Hm.
    + destruct depth as [depth|]; [left; by eexists|]. right. by apply Hdepth.
  - intros (Hconn & Hgens & Hdepth). by apply init_returns.
  - intros Hconn. by destruct conn as [|key|dict]; [| |destruct Hconn].
Qed.

(** X16. A generator built from a key (or from the default) with
    [n_qubits >= 1] has the qubits [range(n_qubits)], that many of them,
    and the depth given, which defaults to [n_qubits]. *)
Theorem generator_init_qubits depth conn (n : Z) gens angles :
  builds_connectivity conn → iterable gens → (1 ≤ n)%Z →
  ∃ self,
    Gen.init depth conn (Some n) gens angles = Gen.Return self
    ∧ Gen.qubits self = Gen.Return (Gen.range 0 n)
    ∧ Gen.n_qubits self = Gen.Return (Z.to_nat n)
    ∧ Gen.max_depth self = Gen.Return (default n depth).
Proof.
  intros Hconn Hgens Hn.
  destruct (init_returns depth conn (Some n) gens angles) as [self Hinit];
    [right; split; [done|by eexists] | done | right; by eexists |].
  exists self. split; [done|].
  apply init_unfold in Hinit
    as (base & l & d & -> & -> & _ & _ & _ & Hbase).
  assert (∃ m, base = {[ "_connectivity" := Gen.AttrConnectivity m ]}
               ∧ m.*1 = Gen.range 0 n) as (m & -> & Hkeys).
  { destruct (make_connectivity_map_keys (key_of conn) n)
      as (m & Hm & Hkeys); [|done|].
    { destruct conn as [|key|dict]; [|done|done].
      apply elem_of_cons. by left. }
    destruct conn as [|key|dict]; [| |done];
      destruct Hbase as (n' & m' & [= <-] & Hm' & ->);
      exists m; (split; [|done]); cbn [key_of] in Hm;
      rewrite Hm' in Hm; by injection Hm as ->. }
  destruct (init_getters
              {[ "_connectivity" := Gen.AttrConnectivity m ]} l
              (default (default 0%Z (Some n)) depth)
              (Gen.dict_update []
                 ((λ kv, (Gen.upper kv.1, kv.2)) <$> default [] angles)))
    as (Hc & _ & Hd & _).
  unfold Gen.n_qubits, Gen.qubits. rewrite Hc, Hd.
  rewrite (proj1 (connectivity_singleton m)). cbn. rewrite Hkeys.
  repeat split. by rewrite length_range, Z.sub_0_r.
Qed.

Lemma generator_init_qubits_witness :
  ∃ self,
    Gen.init None Gen.ConnNone (Some 3%Z) Gen.GensNone None = Gen.Return self
    ∧ Gen.qubits self = Gen.Return (Gen.range 0 3)
    ∧ Gen.n_qubits self = Gen.Return (Z.to_nat 3)
    ∧ Gen.max_depth self = Gen.Return (default 3%Z None).
Proof.
  apply (generator_init_qubits None Gen.ConnNone 3 Gen.GensNone None).
  - exact I.
  - exact I.
  - lia.
Defined.

(** X17. After [__init__], [max_coupling] raises AttributeError for
    every generator, and so do [connectivity], [qubits] and [n_qubits]
    for one that was given its connectivity as a dict: the attribute is
    set from a key only.  The depth is the one given, else the
    [n_qubits] given, and the generators left out are the nine default
    ones. *)
Theorem generator_init_attributes depth conn n gens angles self :
  Gen.init depth conn n gens angles = Gen.Return self →
  Gen.max_coupling self = Gen.Throw (Gen.AttributeError "_max_coupling")
  ∧ (is_dict conn →
     Gen.connectivity self = Gen.Throw (Gen.AttributeError "_connectivity")
     ∧ Gen.qubits self = Gen.Throw (Gen.AttributeError "_connectivity")
     ∧ Gen.n_qubits self = Gen.Throw (Gen.AttributeError "_connectivity"))
  ∧ (¬ is_dict conn → ∃ d, Gen.connectivity self = Gen.Return d)
  ∧ (∃ d, Gen.max_depth self = Gen.Return d
          ∧ (depth = Some d ∨ depth = None ∧ n = Some d))
  ∧ (gens = Gen.GensNone →
     Gen.generators self = Gen.Return Gen.default_generators).
Proof.
  intros Hinit.
  apply init_unfold in Hinit
    as (base & l & d & -> & -> & Hdepth & _ & -> & Hbase).
  destruct (init_getters base
              match gens with
              | Gen.GensList l => Gen.normalise <$> l
              | _ => Gen.default_generators
              end
              (default (default 0%Z n) depth)
              (Gen.dict_update []
                 ((λ kv, (Gen.upper kv.1, kv.2)) <$> default [] angles)))
    as (Hc & Hm & Hd & Hg & _).
  unfold Gen.n_qubits, Gen.qubits. rewrite Hc, Hm, Hd, Hg.
  split; [|split; [|split; [|split]]].
  - destruct conn as [|key|dict]; [| |by rewrite Hbase];
      destruct Hbase as (n' & m & _ & _ & ->);
      apply connectivity_singleton.
  - intros Hdict. destruct conn as [|key|dict]; [done|done|].
    by rewrite Hbase.
  - intros Hdict. destruct conn as [|key|dict]; [| |by destruct Hdict];
      destruct Hbase as (n' & m & _ & _ & ->);
      exists m; apply connectivity_singleton.
  - eexists. split; [done|].
    destruct depth as [depth|]; [by left|].
    destruct (Hdepth eq_refl) as [n' ->]. by right.
  - by intros ->.
Qed.

Lemma generator_init_attributes_witness :
  ∃ self,
    Gen.init (Some 2%Z) (Gen.ConnDict line_map) None Gen.GensNone None
    = Gen.Return self
    ∧ Gen.max_coupling self = Gen.Throw (Gen.AttributeError "_max_coupling")
    ∧ Gen.qubits self = Gen.Throw (Gen.AttributeError "_connectivity").
Proof.
  eexists. split; [reflexivity|].
  pose proof (generator_init_attributes
                (Some 2%Z) (Gen.ConnDict line_map) None Gen.GensNone None _
                eq_refl) as (Hmax & Hdict & _).
  split; [exact Hmax|]. exact (proj1 (proj2 (Hdict I))).
Defined.

(** X18. Generators that differ in the order of their letters only are
    kept as the same text: [__init__] gives the same result, instance or
    error, for both lists. *)
Theorem generator_init_same_letters depth conn n gl gl' angles :
  Forall2 same_letters gl gl' →
  Gen.init depth conn n (Gen.GensList gl) angles
  = Gen.init depth conn n (Gen.GensList gl') angles.
Proof.
  intros Hsame.
  assert (Gen.normalise <$> gl = Gen.normalise <$> gl') as Heq.
  { induction Hsame as [|x y gl gl' Hxy _ IH]; [done|].
    rewrite !fmap_cons, IH. f_equal.
    by apply normalise_same_letters. }
  unfold Gen.init. by rewrite Heq.
Qed.

Lemma generator_init_same_letters_witness :
  Gen.init None Gen.ConnNone (Some 2%Z) (Gen.GensList ["YX"; "Z"]) None
  = Gen.init None Gen.ConnNone (Some 2%Z) (Gen.GensList ["XY"; "Z"]) None.
Proof.
  apply (generator_init_same_letters
           None Gen.ConnNone (Some 2%Z) ["YX"; "Z"] ["XY"; "Z"] None).
  repeat constructor.
Defined.

Lemma filter_upper_keys {V} (K : string) (items : list (string * V)) :
  filter (λ kv, kv.1 = K) ((λ kv, (Gen.upper kv.1, kv.2)) <$> items)
  = (λ kv, (Gen.upper kv.1, kv.2))
      <$> filter (λ kv, Gen.upper kv.1 = K) items.
Proof.
  induction items as [|[k v] items IH]; [done|].
  rewrite fmap_cons, !filter_cons. cbn [fst snd].
  destruct (decide (Gen.upper k = K)); by rewrite IH.
Qed.

(** X19. The fixed angles are kept under the upper case of their keys
    (for keys whose upper case stays below code point 256): the entry for
    [K] is the value of the last item whose key is [K] in upper case, and
    there is none when no key is.  Without [fix_angles] the dict is
    empty. *)
Theorem generator_init_fix_angles depth conn n gens angles self :
  Forall (λ kv, upper_below_256 kv.1) (default [] angles) →
  Gen.init depth conn n gens angles = Gen.Return self →
  ∃ d,
    Gen.fix_angles self = Gen.Return d
    ∧ (angles = None → d = [])
    ∧ ∀ K,
        Gen.dict_get K d
        = snd <$> last (filter (λ kv, Gen.upper kv.1 = K)
                               (default [] angles)).
Proof.
  intros _ Hinit.
  apply init_unfold in Hinit as (base & l & d & -> & _).
  rewrite (proj2 (proj2 (proj2 (proj2 (init_getters base l d _))))).
  eexists. split; [done|]. split; [by intros ->|].
  intros K. rewrite dict_get_update. cbn [Gen.dict_get].
  rewrite filter_upper_keys, fmap_last.
  by destruct (last _) as [[k v]|].
Qed.

Lemma generator_init_fix_angles_witness :
  ∃ self d,
    Gen.init (Some 1%Z) Gen.ConnNone (Some 2%Z) Gen.GensNone
      (Some [("xy", Num 1%Q); ("XY", Num 2%Q)])
    = Gen.Return self
    ∧ Gen.fix_angles self = Gen.Return d
    ∧ Gen.dict_get "XY" d = Some (Num 2%Q).
Proof.
  eexists.
  edestruct (generator_init_fix_angles
               (Some 1%Z) Gen.ConnNone (Some 2%Z) Gen.GensNone
               (Some [("xy", Num 1%Q); ("XY", Num 2%Q)]))
    as (d & Hd & _ & Hget); [| reflexivity |].
  - repeat constructor; vm_compute; intros H;
      repeat (apply elem_of_cons in H as [H|H]; [discriminate|]);
      by apply elem_of_nil in H.
  - exists d. split; [reflexivity|]. split; [exact Hd|].
    rewrite Hget. reflexivity.
Defined.
